(** * ai-chatbot: completion dispatcher and response rendering

  A shallow embedding of the parts of the chat application that decide
  how a completion is obtained (server/ai-service.ts), how stored roles
  are normalised (server/routes.ts), how an assistant message is parsed
  and projected to plain text (client MessageItem.tsx) and which message
  animates (client ChatContent).

  JavaScript strings are sequences of UTF-16 code units; they are modelled
  as lists of code units so that [trim], [split] and the regular
  expressions of the source see the same characters as the engine. *)

From Stdlib Require Import String Ascii NArith ZArith Bool Arith Lia List.
From ExtLib Require Import Structures.Monad Structures.MonadExc.
Import ListNotations.
Import MonadNotation.
Local Open Scope monad_scope.

Set Implicit Arguments.

(* ===================================================================== *)
(** ** JavaScript strings *)
(* ===================================================================== *)

Module JS.

(** A UTF-16 code unit. *)
Definition jschar := N.
Definition jsstring := list jschar.

(** Literals of the source that are plain ASCII are written [js "..."]. *)
Definition js (s : string) : jsstring :=
  map N_of_ascii (list_ascii_of_string s).

Definition LF : jschar := 10%N.

Fixpoint eqb (a b : jsstring) : bool :=
  match a, b with
  | [], [] => true
  | x :: a', y :: b' => N.eqb x y && eqb a' b'
  | _, _ => false
  end.

(** [a || b] on strings: the empty string is falsy. *)
Definition orElse (a b : jsstring) : jsstring :=
  match a with [] => b | _ => a end.

(** Truthiness of [process.env.X]: defined and not empty. *)
Definition truthy (v : option jsstring) : bool :=
  match v with
  | Some (_ :: _) => true
  | _ => false
  end.

(** ECMAScript WhiteSpace and LineTerminator code units: what
    [String.prototype.trim] strips and what [\s] matches. *)
Definition isWhiteSpace (c : jschar) : bool :=
  ((9 <=? c) && (c <=? 13) || (c =? 32) || (c =? 160) || (c =? 5760)
   || (8192 <=? c) && (c <=? 8202) || (c =? 8232) || (c =? 8233)
   || (c =? 8239) || (c =? 8287) || (c =? 12288) || (c =? 65279))%N.

Fixpoint trimStart (s : jsstring) : jsstring :=
  match s with
  | c :: s' => if isWhiteSpace c then trimStart s' else s
  | [] => []
  end.

Definition trimEnd (s : jsstring) : jsstring := rev (trimStart (rev s)).

Definition trim (s : jsstring) : jsstring := trimEnd (trimStart s).

(** [s.split(sep)] for a one-character separator; [''.split(sep)] is
    the one-element array holding the empty string. *)
Fixpoint split (sep : jschar) (s : jsstring) : list jsstring :=
  match s with
  | [] => [[]]
  | c :: s' =>
      if N.eqb c sep then [] :: split sep s'
      else match split sep s' with
           | h :: t => (c :: h) :: t
           | [] => [[c]]
           end
  end.

(** [s.includes(c)] for a one-character needle. *)
Definition includes (c : jschar) (s : jsstring) : bool :=
  existsb (N.eqb c) s.

(** [s.startsWith(p)], returning the rest of [s] after [p]. *)
Fixpoint stripPrefix (p s : jsstring) : option jsstring :=
  match p, s with
  | [], _ => Some s
  | x :: p', y :: s' => if N.eqb x y then stripPrefix p' s' else None
  | _ :: _, [] => None
  end.

(** [parts[i]] of the array a [split] returned.  The callers index 0
    and 1 of a string that holds the separator, where [split] gives at
    least two parts; the default stands for [undefined] and is never
    reached by them. *)
Definition at_ (parts : list jsstring) (i : nat) : jsstring :=
  nth i parts [].

End JS.

Import JS.
Arguments js s%_string.

(* ===================================================================== *)
(** ** server/ai-service.ts: messages and provider requests *)
(* ===================================================================== *)

Module AiService.

(** [AIMessage.role]: 'user' | 'assistant' | 'system'. *)
Inductive Role := User | Assistant | System.

Definition Role_eqb (a b : Role) : bool :=
  match a, b with
  | User, User | Assistant, Assistant | System, System => true
  | _, _ => false
  end.

Record AIMessage := mkAIMessage { role : Role; content : jsstring }.

(** The template literal of [generateOpenAIChatCompletion]; its first
    line ends in a space and its second line holds four spaces. *)
Definition openaiInstruction : jsstring := js
"You are a helpful AI assistant. After providing your answer, suggest 4 follow-up questions that might be relevant to continue the conversation. 
    
Format your response like this:
1. Answer the user's question normally and completely.
2. At the end of your response, add:
<QUICK_QUESTIONS>
Question 1
Question 2
Question 3
Question 4
</QUICK_QUESTIONS>

Keep the questions concise, focused, and diverse to explore different aspects of the topic. Make sure questions are relevant to the context of the conversation.".

(** The template literal of [generateMistralChatCompletion]: the same
    text, its second line holding six spaces. *)
Definition mistralInstruction : jsstring := js
"You are a helpful AI assistant. After providing your answer, suggest 4 follow-up questions that might be relevant to continue the conversation. 
      
Format your response like this:
1. Answer the user's question normally and completely.
2. At the end of your response, add:
<QUICK_QUESTIONS>
Question 1
Question 2
Question 3
Question 4
</QUICK_QUESTIONS>

Keep the questions concise, focused, and diverse to explore different aspects of the topic. Make sure questions are relevant to the context of the conversation.".

(** [quickQuestionsInstructions] of [generateGoogleChatCompletion]: it
    starts and ends with a line break. *)
Definition quickQuestionsInstructions : jsstring := js
"
You are a helpful AI assistant. After providing your answer, suggest 4 follow-up questions that might be relevant to continue the conversation.

Format your response like this:
1. Answer the user's question normally and completely.
2. At the end of your response, add:
<QUICK_QUESTIONS>
Question 1
Question 2
Question 3
Question 4
</QUICK_QUESTIONS>

Keep the questions concise, focused, and diverse to explore different aspects of the topic. Make sure questions are relevant to the context of the conversation.
".

(** [messages.some(msg => msg.role === 'system')] *)
Definition hasSystemMessage (messages : list AIMessage) : bool :=
  existsb (fun msg => Role_eqb (role msg) System) messages.

(** The conditional expression that builds [openaiMessages] and
    [formattedMessages] (Mistral), for an instruction text. *)
Definition withInstruction (instruction : jsstring)
    (messages : list AIMessage) : list AIMessage :=
  if negb (hasSystemMessage messages) then
    mkAIMessage System instruction
      :: map (fun msg => mkAIMessage (role msg) (content msg)) messages
  else
    map (fun msg =>
           if Role_eqb (role msg) System then
             mkAIMessage (role msg)
               (content msg ++ [LF; LF] ++ instruction)
           else mkAIMessage (role msg) (content msg))
        messages.

Definition openaiMessages := withInstruction openaiInstruction.
Definition mistralMessages := withInstruction mistralInstruction.

(** Gemini's role labels. *)
Inductive GeminiRole := GModel | GUser.

(** One entry of [contents]: [{ role, parts: [{ text }] }]. *)
Record GeminiContent := mkGemini { grole : GeminiRole; parts : list jsstring }.

(** The loop variables of [generateGoogleChatCompletion]. *)
Record GoogleLoop := mkLoop {
  systemPrompt : jsstring;
  formattedMessages : list GeminiContent
}.

(** One iteration of [for (const msg of messages)]. *)
Definition googleStep (st : GoogleLoop) (msg : AIMessage) : GoogleLoop :=
  match role msg with
  | System =>
      mkLoop (systemPrompt st ++ content msg ++ [LF; LF])
             (formattedMessages st)
  | r =>
      let geminiRole := match r with Assistant => GModel | _ => GUser end in
      let isUser := match geminiRole with GUser => true | GModel => false end in
      if isUser && negb (JS.eqb (systemPrompt st) [])
         && (length (formattedMessages st) =? 0) then
        mkLoop []
          (formattedMessages st
             ++ [mkGemini geminiRole [systemPrompt st ++ content msg]])
      else
        mkLoop (systemPrompt st)
          (formattedMessages st ++ [mkGemini geminiRole [content msg]])
  end.

(** The [contents] sent to Gemini: the loop, then the entry made up
    when nothing was pushed. *)
Definition googleContents (messages : list AIMessage) : list GeminiContent :=
  let st := fold_left googleStep messages
              (mkLoop (quickQuestionsInstructions ++ [LF; LF]) []) in
  if (length (formattedMessages st) =? 0)
     && negb (JS.eqb (systemPrompt st) []) then
    formattedMessages st ++ [mkGemini GUser [systemPrompt st]]
  else formattedMessages st.

(** What leaves the process: one call of a vendor SDK. *)
Inductive Request :=
| OpenAIRequest (model : jsstring) (messages : list AIMessage)
| MistralRequest (model : jsstring) (messages : list AIMessage)
| GoogleRequest (model : jsstring) (contents : list GeminiContent).

Inductive Vendor := OpenAI | Mistral | Google.

Definition vendorOf (r : Request) : Vendor :=
  match r with
  | OpenAIRequest _ _ => OpenAI
  | MistralRequest _ _ => Mistral
  | GoogleRequest _ _ => Google
  end.

(** A thrown [Error]: the handlers only read [message]. *)
Record JsError := mkError { message : jsstring }.

(** [process.env], read at the time of the call. *)
Record Env := mkEnv {
  OPENAI_API_KEY : option jsstring;
  GOOGLE_API_KEY : option jsstring;
  MISTRAL_API_KEY : option jsstring
}.

(** *** Asynchronous code that may throw

    A call runs against the outside world and either returns or throws;
    what it did to the world stays done when it throws.  The machine
    also keeps the list of requests made so far, oldest first. *)

Inductive Completion (A : Type) :=
| Returned (a : A)
| Threw (e : JsError).
Arguments Returned {A} a.
Arguments Threw {A} e.

Section Tasks.

(** The state of the vendors' services. *)
Variable World : Type.

(** A vendor SDK call together with the extraction of the answer's text
    ([response.choices[0].message.content || ''] for OpenAI, the checks
    on [choices] and the joining of content chunks for Mistral,
    [response.text()] for Gemini): either the text, or the error thrown
    on the way.  The outcome may depend on the state of the world, so
    asking the same vendor twice can fail once and answer once. *)
Variable sdk : Request -> World -> Completion jsstring * World.

Record Machine := mkMachine { world : World; requests : list Request }.

Definition Task (A : Type) := Machine -> Completion A * Machine.

#[export] Instance Monad_Task : Monad Task := {|
  ret := fun A (a : A) m => (Returned a, m);
  bind := fun A B (c : Task A) (k : A -> Task B) m =>
            match c m with
            | (Returned a, m') => k a m'
            | (Threw e, m') => (Threw e, m')
            end
|}.

(** [throw e] and [try { c } catch (e) { h e }]. *)
#[export] Instance Exc_Task : MonadExc JsError Task := {|
  raise := fun A (e : JsError) m => (Threw e, m);
  catch := fun A (c : Task A) (h : JsError -> Task A) m =>
             match c m with
             | (Returned a, m') => (Returned a, m')
             | (Threw e, m') => h e m'
             end
|}.

(** [await] of one SDK call. *)
Definition call (r : Request) : Task jsstring :=
  fun m =>
    let (res, w) := sdk r (world m) in
    (res, mkMachine w (requests m ++ [r])).

Definition generateOpenAIChatCompletion
    (messages : list AIMessage) (model : jsstring) : Task jsstring :=
  call (OpenAIRequest model (openaiMessages messages)).

(** Its [catch] logs and throws the same error again. *)
Definition generateMistralChatCompletion
    (messages : list AIMessage) (model : jsstring) : Task jsstring :=
  catch (call (MistralRequest model (mistralMessages messages)))
        (fun error => raise error).

Definition generateGoogleChatCompletion
    (messages : list AIMessage) (model : jsstring) : Task jsstring :=
  catch (call (GoogleRequest model (googleContents messages)))
        (fun error => raise error).

Definition colon : jschar := 58%N.

(** [provider] and [modelName] as both exported functions compute
    them from [model]. *)
Definition parseSelector (model : jsstring) : jsstring * jsstring :=
  if includes colon model then
    let parts := split colon model in (at_ parts 0, at_ parts 1)
  else (js "openai", model).

(** [switch (provider)] of [generateChatCompletion]. *)
Definition dispatch (provider modelName : jsstring)
    (messages : list AIMessage) : Task jsstring :=
  if JS.eqb provider (js "openai") then
    generateOpenAIChatCompletion messages modelName
  else if JS.eqb provider (js "google") then
    generateGoogleChatCompletion messages modelName
  else if JS.eqb provider (js "mistral") then
    generateMistralChatCompletion messages modelName
  else
    raise (mkError (js "Unsupported AI provider: " ++ provider)).

(** [if (cond) { try { return await attempt; } catch (fallbackError)
    { log } }] followed by the rest of the handler. *)
Definition tryFallback (cond : bool) (attempt rest : Task jsstring)
    : Task jsstring :=
  if cond then catch attempt (fun fallbackError => rest) else rest.

Variable env : Env.

Definition generateChatCompletion (messages : list AIMessage)
    (model : option jsstring) : Task jsstring :=
  let model := match model with Some m => m | None => js "gpt-4o" end in
  let '(provider, modelName) := parseSelector model in
  catch (dispatch provider modelName messages)
    (fun error =>
       tryFallback
         (truthy (MISTRAL_API_KEY env) && negb (JS.eqb provider (js "mistral")))
         (generateMistralChatCompletion messages (js "mistral-large-2"))
      (tryFallback
         (truthy (OPENAI_API_KEY env) && negb (JS.eqb provider (js "openai")))
         (generateOpenAIChatCompletion messages (js "gpt-3.5-turbo"))
      (tryFallback
         (truthy (GOOGLE_API_KEY env) && negb (JS.eqb provider (js "google")))
         (generateGoogleChatCompletion messages (js "gemini-2.0-flash"))
      (let errorMessage := orElse (message error) (js "Unknown error") in
       raise (mkError (js "Failed to generate AI response: " ++ errorMessage)))))).

Definition titlePromptText : jsstring := js
"Generate a short, descriptive title (max 6 words) for a conversation that starts with the following message. Respond with ONLY the title, no quotes or additional text.".

(** The [try] block of [generateConversationTitle]. *)
Definition titlePrimary (firstUserMessage model : jsstring) : Task jsstring :=
  let '(provider, modelName) := parseSelector model in
  if JS.eqb provider (js "openai") then
    let systemPrompt := titlePromptText in
    generateOpenAIChatCompletion
      [mkAIMessage System systemPrompt; mkAIMessage User firstUserMessage]
      modelName
  else if JS.eqb provider (js "google") then
    let titlePrompt := titlePromptText ++ [LF; LF] ++ firstUserMessage in
    generateGoogleChatCompletion [mkAIMessage User titlePrompt] modelName
  else
    generateOpenAIChatCompletion
      [mkAIMessage System titlePromptText; mkAIMessage User firstUserMessage]
      (js "gpt-3.5-turbo").

(** The inner [try] of the handler: [Some title] when it returned
    from inside, [None] when control falls out of it. *)
Definition titleFallback (firstUserMessage : jsstring)
    : Task (option jsstring) :=
  catch
    (if truthy (GOOGLE_API_KEY env) then
       let titlePrompt := titlePromptText ++ [LF; LF] ++ firstUserMessage in
       title <- generateGoogleChatCompletion
                  [mkAIMessage User titlePrompt] (js "gemini-2.0-flash") ;;
       ret (Some title)
     else ret None)
    (fun fallbackError => ret None).

Definition generateConversationTitle (firstUserMessage : jsstring)
    (model : option jsstring) : Task jsstring :=
  let model := match model with Some m => m | None => js "gpt-3.5-turbo" end in
  catch (titlePrimary firstUserMessage model)
    (fun error =>
       r <- titleFallback firstUserMessage ;;
       match r with
       | Some title => ret title
       | None => ret (js "New Conversation")
       end).

End Tasks.

End AiService.

(* ===================================================================== *)
(** ** server/routes.ts: history handed to the dispatcher *)
(* ===================================================================== *)

Module Routes.

Import AiService.

(** A row of the [messages] table; [role] is free text there. *)
Record Message := mkMessage {
  id : Z;
  conversationId : Z;
  role : jsstring;
  content : jsstring
}.

(** The conditional chain bound to [role] inside [allMessages.map]. *)
Definition supportedRole (r : jsstring) : Role :=
  if JS.eqb r (js "user") then User
  else if JS.eqb r (js "assistant") then Assistant
  else if JS.eqb r (js "system") then System
  else User.

Definition formattedMessages (allMessages : list Message) : list AIMessage :=
  map (fun msg => mkAIMessage (supportedRole (role msg)) (content msg))
      allMessages.

End Routes.

(* ===================================================================== *)
(** ** Regular expressions of the client *)
(* ===================================================================== *)

Module Regex.

(** A pattern tried at the start of its input: the value it yields and
    the input left after the match. *)
Definition Matcher (A : Type) := jsstring -> option (A * jsstring).

(** [[\s\S]*?] followed by the literal [close]: the shortest stretch
    first, one more character on each backtrack. *)
Fixpoint lazyUntil (close : jsstring) (s : jsstring)
    : option (jsstring * jsstring) :=
  match stripPrefix close s with
  | Some rest => Some ([], rest)
  | None =>
      match s with
      | [] => None
      | c :: s' =>
          match lazyUntil close s' with
          | Some (inner, rest) => Some (c :: inner, rest)
          | None => None
          end
      end
  end.

(** [open([\s\S]*?)close]: the captured group and the rest. *)
Definition delimited (open close : jsstring) : Matcher jsstring :=
  fun s =>
    match stripPrefix open s with
    | Some s1 => lazyUntil close s1
    | None => None
    end.

(** The engine's search: the pattern is tried at index 0, 1, 2, ...;
    the result is the text before the first match, its value, and the
    text after it. *)
Fixpoint search {A} (m : Matcher A) (s : jsstring)
    : option (jsstring * A * jsstring) :=
  match m s with
  | Some (a, rest) => Some ([], a, rest)
  | None =>
      match s with
      | [] => None
      | c :: s' =>
          match search m s' with
          | Some (before, a, rest) => Some (c :: before, a, rest)
          | None => None
          end
      end
  end.

(** [s.replace(re, ...)] without the [g] flag, the matcher yielding the
    replacement text. *)
Definition replaceFirst (m : Matcher jsstring) (s : jsstring) : jsstring :=
  match search m s with
  | Some (before, repl, rest) => before ++ repl ++ rest
  | None => s
  end.

(** [s.replace(re, ...)] with the [g] flag, for patterns that match at
    least one character: after a match the search goes on behind it.
    [fuel] bounds the number of characters still to look at. *)
Fixpoint replaceAllFrom (fuel : nat) (m : Matcher jsstring) (s : jsstring)
    : jsstring :=
  match fuel with
  | 0 => s
  | S fuel' =>
      match s with
      | [] => []
      | c :: s' =>
          match m s with
          | Some (repl, rest) => repl ++ replaceAllFrom fuel' m rest
          | None => c :: replaceAllFrom fuel' m s'
          end
      end
  end.

Definition replaceAll (m : Matcher jsstring) (s : jsstring) : jsstring :=
  replaceAllFrom (length s) m s.

(** A pattern that never matches the empty string: what is left after
    a match is shorter than the input. *)
Definition consuming (m : Matcher jsstring) : Prop :=
  forall s repl rest, m s = Some (repl, rest) -> length rest < length s.

(** A literal, replaced by the empty string. *)
Definition literal (p : jsstring) : Matcher jsstring :=
  fun s => match stripPrefix p s with
           | Some rest => Some ([], rest)
           | None => None
           end.

(** [[^x]+]: the longest non-empty run of characters other than [x].
    A shorter run is never followed by [x], so no backtracking into it
    can succeed. *)
Fixpoint runNot (x : jschar) (s : jsstring) : jsstring * jsstring :=
  match s with
  | c :: s' =>
      if N.eqb c x then ([], s)
      else let (r, rest) := runNot x s' in (c :: r, rest)
  | [] => ([], [])
  end.

Definition lbracket : jschar := 91%N.
Definition rbracket : jschar := 93%N.
Definition lparen : jschar := 40%N.
Definition rparen : jschar := 41%N.
Definition hash : jschar := 35%N.
Definition star : jschar := 42%N.
Definition backtick : jschar := 96%N.

(** [\[([^\]]+)\]\([^)]+\)] with replacement [$1]. *)
Definition link : Matcher jsstring :=
  fun s =>
    match s with
    | c :: s1 =>
        if N.eqb c lbracket then
          match runNot rbracket s1 with
          | ((_ :: _) as text, c1 :: c2 :: s2) =>
              if N.eqb c1 rbracket && N.eqb c2 lparen then
                match runNot rparen s2 with
                | (_ :: _, c3 :: s3) =>
                    if N.eqb c3 rparen then Some (text, s3) else None
                | _ => None
                end
              else None
          | _ => None
          end
        else None
    | [] => None
    end.

(** Up to [n] more [#], as many as possible first, then [\s]. *)
Fixpoint hashesThenSpace (n : nat) (s : jsstring) : option jsstring :=
  let space :=
    match s with
    | c :: s' => if isWhiteSpace c then Some s' else None
    | [] => None
    end in
  match n with
  | 0 => space
  | S n' =>
      match s with
      | c :: s' =>
          if N.eqb c hash then
            match hashesThenSpace n' s' with
            | Some rest => Some rest
            | None => space
            end
          else space
      | [] => None
      end
  end.

(** [#{1,6}\s], replaced by the empty string. *)
Definition heading : Matcher jsstring :=
  fun s =>
    match s with
    | c :: s' =>
        if N.eqb c hash then
          match hashesThenSpace 5 s' with
          | Some rest => Some ([], rest)
          | None => None
          end
        else None
    | [] => None
    end.

End Regex.

(* ===================================================================== *)
(** ** client MessageItem.tsx: quick questions and plain text *)
(* ===================================================================== *)

Module MessageItem.

Import Regex.

(** [const isUser = message.role === "user"] *)
Definition isUser (role : jsstring) : bool := JS.eqb role (js "user").

Definition openTag : jsstring := js "<QUICK_QUESTIONS>".
Definition closeTag : jsstring := js "</QUICK_QUESTIONS>".

(** [/<QUICK_QUESTIONS>([\s\S]*?)<\/QUICK_QUESTIONS>/], yielding its
    group. *)
Definition quickQuestionsRe : Matcher jsstring := delimited openTag closeTag.

(** [/<QUICK_QUESTIONS>[\s\S]*?<\/QUICK_QUESTIONS>/], replaced by the
    empty string. *)
Definition quickQuestionsBlock : Matcher jsstring :=
  fun s =>
    match delimited openTag closeTag s with
    | Some (_, rest) => Some ([], rest)
    | None => None
    end.

(** The two pieces of component state the first effect writes. *)
Record Parsed := mkParsed {
  cleanContent : jsstring;
  quickQuestions : list jsstring
}.

(** [questionsText.split('\n').map(q => q.trim()).filter(q => q.length > 0)] *)
Definition questionLines (questionsText : jsstring) : list jsstring :=
  filter (fun q => 0 <? length q) (map trim (split LF questionsText)).

(** The body of the first effect for a message that is not the user's.
    A match whose group is the empty string takes the [else] branch:
    the empty string is falsy. *)
Definition parseAssistant (content : jsstring) : Parsed :=
  match search quickQuestionsRe content with
  | Some (_, ((_ :: _) as group), _) =>
      let questionsText := trim group in
      let questions := questionLines questionsText in
      let cleanedContent :=
        trim (replaceFirst quickQuestionsBlock content) in
      mkParsed cleanedContent questions
  | _ => mkParsed content []
  end.

(** The first effect: a user's message only sets [cleanContent]. *)
Definition processContent (role content : jsstring) (st : Parsed) : Parsed :=
  if isUser role then mkParsed content (quickQuestions st)
  else parseAssistant content.

Definition codeBlockToken : jsstring := js "(code block)".

(** [/```[\s\S]*?```/], replaced by the placeholder. *)
Definition fence : Matcher jsstring :=
  fun s =>
    match delimited (js "```") (js "```") s with
    | Some (_, rest) => Some (codeBlockToken, rest)
    | None => None
    end.

(** The chain of [replace] calls that fills [plainTextContent]. *)
Definition plainTextContent (fullContent : jsstring) : jsstring :=
  replaceAll heading
    (replaceAll link
       (replaceAll fence
          (replaceAll (literal [backtick])
             (replaceAll (literal [star])
                (replaceAll (literal [star; star]) fullContent))))).

End MessageItem.

(* ===================================================================== *)
(** ** client ChatContent: which message animates *)
(* ===================================================================== *)

Module ChatContent.

Record Message := mkMessage {
  id : Z;
  role : jsstring;
  content : jsstring
}.

(** [animatedMessageId] (state), [prevMessagesRef] and
    [conversationIdRef] (refs). *)
Record State := mkState {
  animatedMessageId : option Z;
  prevMessagesRef : list Message;
  conversationIdRef : option Z
}.

(** What the component holds when it mounts. *)
Definition initial : State := mkState None [] None.

Definition sameId (a : Z) (b : option Z) : bool :=
  match b with Some b' => Z.eqb a b' | None => false end.

(** The first effect: reset on a change of conversation. *)
Definition resetOnSwitch (conversationId : Z) (st : State) : State :=
  if negb (sameId conversationId (conversationIdRef st)) then
    mkState None [] (Some conversationId)
  else st.

Definition isAssistant (m : Message) : bool :=
  JS.eqb (role m) (js "assistant").

(** The second effect: track newly arrived messages. *)
Definition trackMessages (messages : list Message) (st : State) : State :=
  let prev := prevMessagesRef st in
  if (length prev =? 0) && (0 <? length messages) then
    mkState (animatedMessageId st) messages (conversationIdRef st)
  else if length prev <? length messages then
    let newMessages := skipn (length prev) messages in
    let newAiMessages := filter isAssistant newMessages in
    let animated :=
      if 0 <? length newAiMessages then
        match nth_error newAiMessages (length newAiMessages - 1) with
        | Some latest => Some (id latest)
        | None => animatedMessageId st
        end
      else animatedMessageId st in
    mkState animated messages (conversationIdRef st)
  else st.

(** The effects of one render, in the order they are declared; the
    second runs when the [messages] prop is a new array. *)
Definition render (conversationId : Z) (messages : list Message)
    (messagesChanged : bool) (st : State) : State :=
  let st1 := resetOnSwitch conversationId st in
  if messagesChanged then trackMessages messages st1 else st1.

Definition handleTypingComplete (messageId : Z) (st : State) : State :=
  if sameId messageId (animatedMessageId st) then
    mkState None (prevMessagesRef st) (conversationIdRef st)
  else st.

(** The [isNew] prop handed to [MessageItem]. *)
Definition isNew (st : State) (message : Message) : bool :=
  isAssistant message && sameId (id message) (animatedMessageId st).

End ChatContent.

(* ===================================================================== *)
(** ** The behaviour the specification describes *)
(* ===================================================================== *)

(** Definitions written after the specification's sentences, to be
    compared with the ones above that follow the code. *)

Module Spec.

Import AiService.

(** How one message of the history reaches a provider with a system role
    when the history holds a system message. *)
Definition augmented (instruction : jsstring) (msg out : AIMessage) : Prop :=
  role out = role msg /\
  content out =
    match role msg with
    | System => content msg ++ [LF; LF] ++ instruction
    | _ => content msg
    end.

(** [s.indexOf(p)]: the least index at which [p] starts in [s]. *)
Fixpoint indexOf (p s : jsstring) : option nat :=
  match stripPrefix p s with
  | Some _ => Some 0
  | None =>
      match s with
      | [] => None
      | _ :: s' => option_map S (indexOf p s')
      end
  end.

(** The first quick-questions block of a content: the first opening tag
    and the first closing tag behind it cut the content into the text
    before the block, the block's inner text and the text after the
    block.  There is no block when either tag is missing. *)
Definition firstBlock (content : jsstring)
    : option (jsstring * jsstring * jsstring) :=
  match indexOf MessageItem.openTag content with
  | None => None
  | Some i =>
      let rest := skipn (i + length MessageItem.openTag) content in
      match indexOf MessageItem.closeTag rest with
      | None => None
      | Some j =>
          Some (firstn i content, firstn j rest,
                skipn (j + length MessageItem.closeTag) rest)
      end
  end.

(** A text of white space and line breaks only. *)
Definition blank (w : jsstring) : Prop := forallb isWhiteSpace w = true.

(** The lines of a text, each trimmed, the blank ones dropped. *)
Definition trimmedLines (text : jsstring) : list jsstring :=
  filter (fun line => negb (JS.eqb line [])) (map trim (split LF text)).

(** The label Gemini gets for a message that is not a system message. *)
Definition toGemini (msg : AIMessage) : GeminiRole :=
  match role msg with Assistant => GModel | _ => GUser end.

Definition notSystem (msg : AIMessage) : bool :=
  negb (Role_eqb (role msg) System).

(** The fallback candidates in their fixed order: the provider's name,
    its credential, and the request with its fixed model. *)
Definition candidates (env : Env) (messages : list AIMessage)
    : list (jsstring * option jsstring * Request) :=
  [ (js "mistral", MISTRAL_API_KEY env,
     MistralRequest (js "mistral-large-2") (mistralMessages messages));
    (js "openai", OPENAI_API_KEY env,
     OpenAIRequest (js "gpt-3.5-turbo") (openaiMessages messages));
    (js "google", GOOGLE_API_KEY env,
     GoogleRequest (js "gemini-2.0-flash") (googleContents messages)) ].

(** A candidate is eligible when its credential is configured and it is
    not the provider that was asked first. *)
Definition eligible (env : Env) (provider : jsstring)
    (messages : list AIMessage) : list Request :=
  map snd
    (filter (fun c => truthy (snd (fst c))
                      && negb (JS.eqb provider (fst (fst c))))
            (candidates env messages)).

(** The single error of an exhausted cascade. *)
Definition completionUnavailable (original : JsError) : JsError :=
  mkError (js "Failed to generate AI response: "
           ++ orElse (message original) (js "Unknown error")).

Section Cascade.

Variable World : Type.
Variable sdk : Request -> World -> Completion jsstring * World.

(** The attempts one after the other: the first answer is the result, a
    failure moves on to the next attempt, and when none is left the call
    fails with the single error made from the original one. *)
Fixpoint firstSuccess (attempts : list Request) (original : JsError)
    (m : Machine World) : Completion jsstring * Machine World :=
  match attempts with
  | [] => (Threw (completionUnavailable original), m)
  | r :: rest =>
      match call sdk r m with
      | (Returned answer, m') => (Returned answer, m')
      | (Threw _, m') => firstSuccess rest original m'
      end
  end.

End Cascade.

End Spec.

(* ===================================================================== *)
(** ** Sample inputs *)
(* ===================================================================== *)

Module Examples.

Import AiService.

(** Every vendor is down: each call throws. *)
Definition allDown (r : Request) (w : unit) : Completion jsstring * unit :=
  (Threw (mkError (js "boom")), w).

(** Every vendor answers. *)
Definition allUp (r : Request) (w : unit) : Completion jsstring * unit :=
  (Returned (js "A title"), w).

Definition start : Machine unit := mkMachine tt [].

(** Only the Mistral credential is configured. *)
Definition onlyMistral : Env := mkEnv None None (Some (js "key")).

Definition hello : list AIMessage := [mkAIMessage User (js "Hello")].

Definition primed : list AIMessage :=
  [mkAIMessage System (js "Be brief."); mkAIMessage User (js "Hello")].

(** Scenario A of the specification. *)
Definition scenarioA : jsstring := js
"Hi there!
<QUICK_QUESTIONS>
How are you?
What's new?
Tell me more
Anything else?
</QUICK_QUESTIONS>".

(** A conversation showing two messages, and a third that arrives. *)
Definition shown : list ChatContent.Message :=
  [ChatContent.mkMessage 1 (js "user") (js "Hello");
   ChatContent.mkMessage 2 (js "assistant") (js "Hi there!")].

Definition arriving : ChatContent.Message :=
  ChatContent.mkMessage 4 (js "assistant") (js "Fine.").

Definition watching : ChatContent.State :=
  ChatContent.mkState (Some 2%Z) shown (Some 7%Z).

End Examples.

(* ===================================================================== *)
(** ** server/ai-service.ts: the models offered to the settings dialog *)
(* ===================================================================== *)

Module Models.

Import AiService.

(** One entry of the array [getAvailableModels] returns. *)
Record Model := mkModel {
  id : jsstring;
  name : jsstring;
  provider : jsstring
}.

(** [models.push(...)] under each credential test, then the placeholder
    when nothing was pushed. *)
Definition getAvailableModels (env : Env) : list Model :=
  let models := [] in
  let models :=
    if truthy (OPENAI_API_KEY env) then
      models ++ [mkModel (js "openai:gpt-4o") (js "GPT-4o (OpenAI)") (js "openai");
                 mkModel (js "openai:gpt-3.5-turbo") (js "GPT-3.5 (OpenAI)")
                         (js "openai")]
    else models in
  let models :=
    if truthy (GOOGLE_API_KEY env) then
      models ++ [mkModel (js "google:gemini-2.0-flash")
                         (js "Gemini 2.0 Flash (Google)") (js "google")]
    else models in
  let models :=
    if truthy (MISTRAL_API_KEY env) then
      models ++ [mkModel (js "mistral:mistral-large-2") (js "Mistral Large 2")
                         (js "mistral");
                 mkModel (js "mistral:mistral-medium") (js "Mistral Medium")
                         (js "mistral")]
    else models in
  if length models =? 0 then
    models ++ [mkModel (js "openai:gpt-3.5-turbo")
                       (js "GPT-3.5 (requires API key)") (js "openai")]
  else models.

(** The name a selector uses for a vendor. *)
Definition vendorName (v : Vendor) : jsstring :=
  match v with
  | OpenAI => js "openai"
  | Mistral => js "mistral"
  | Google => js "google"
  end.

(** The credential of a vendor is configured. *)
Definition configured (env : Env) (v : Vendor) : bool :=
  match v with
  | OpenAI => truthy (OPENAI_API_KEY env)
  | Mistral => truthy (MISTRAL_API_KEY env)
  | Google => truthy (GOOGLE_API_KEY env)
  end.

(** The model a request names. *)
Definition requestModel (r : Request) : jsstring :=
  match r with
  | OpenAIRequest model _ | MistralRequest model _ | GoogleRequest model _ =>
      model
  end.

(** The selector that names the vendor and the model of a request. *)
Definition selectorOf (r : Request) : jsstring :=
  vendorName (vendorOf r) ++ [colon] ++ requestModel r.

(** The entry sent to Gemini for a message that is passed as it is. *)
Definition plainEntry (msg : AIMessage) : GeminiContent :=
  mkGemini (Spec.toGemini msg) [content msg].

End Models.

(* ===================================================================== *)
(** ** What title generation sends first *)
(* ===================================================================== *)

Module Titles.

Import AiService.

(** The first request of title generation, by the selector's provider:
    the title prompt with the quick-questions instruction attached, as a
    system message for OpenAI or in front of the text for Gemini. *)
Definition titleRequest (firstUserMessage selector : jsstring) : Request :=
  let provider := fst (parseSelector selector) in
  let modelName := snd (parseSelector selector) in
  let toOpenAI model :=
    OpenAIRequest model
      [mkAIMessage System (titlePromptText ++ [LF; LF] ++ openaiInstruction);
       mkAIMessage User firstUserMessage] in
  if JS.eqb provider (js "openai") then toOpenAI modelName
  else if JS.eqb provider (js "google") then
    GoogleRequest modelName
      [mkGemini GUser
         [quickQuestionsInstructions ++ [LF; LF]
            ++ titlePromptText ++ [LF; LF] ++ firstUserMessage]]
  else toOpenAI (js "gpt-3.5-turbo").

End Titles.

(* ===================================================================== *)
(** ** server/routes.ts: the conversation and message routes *)
(* ===================================================================== *)

Module Api.

Import AiService.

(** A row of [conversations], without its two timestamps. *)
Record Conversation := mkConversation {
  id : Z;
  title : jsstring;
  userId : Z
}.

(** A row of [user_settings]. *)
Record UserSettings := mkSettings {
  theme : jsstring;
  aiModel : jsstring
}.

(** [InsertMessage]: what [insertMessageSchema] lets through. *)
Record InsertMessage := mkInsert {
  content : jsstring;
  role : jsstring;
  conversationId : Z
}.

(** A call of a method of [storage], with its arguments. *)
Inductive StorageCall :=
| GetConversation (id : Z)
| GetMessagesByConversationId (conversationId : Z)
| CreateMessage (message : InsertMessage)
| UpdateConversation (id : Z) (title : jsstring)
| DeleteConversation (id : Z)
| GetUserSettings (userId : Z).

(** The JSON a handler answers with. *)
Inductive Json :=
| JsonMessage (message : jsstring)
| JsonValidationError
| JsonBothMessages (userMessage aiMessage : Routes.Message)
| JsonConversation (conversation : Conversation)
    (messages : list Routes.Message)
| JsonUpdated (conversation : option Conversation).

(** [res.status(s).json(b)]; [res.json(b)] alone answers 200. *)
Record Response := mkResponse { status : nat; body : Json }.

(** The part of a message request's body the handler can see: the
    string under [content] when there is one, and whatever the client
    put under [role] and [conversationId]. *)
Record MessageBody := mkBody {
  bodyContent : option jsstring;
  bodyRole : option jsstring;
  bodyConversationId : option Z
}.

(** [insertMessageSchema.parse]: [content] and [role] must be strings
    and [conversationId] a number; [None] stands for the [ZodError]. *)
Definition parseInsertMessage (content role : option jsstring)
    (conversationId : option Z) : option InsertMessage :=
  match content, role, conversationId with
  | Some c, Some r, Some i => Some (mkInsert c r i)
  | _, _, _ => None
  end.

Section Handlers.

(** The vendors' services and the database. *)
Variable W D : Type.

Variable vendor : Request -> W -> Completion jsstring * W.

(** [IStorage], as far as these routes use it: each method either
    returns or throws, and may change the database. *)
Record Storage := mkStorage {
  getConversation : Z -> D -> Completion (option Conversation) * D;
  getMessagesByConversationId :
    Z -> D -> Completion (list Routes.Message) * D;
  createMessage : InsertMessage -> D -> Completion Routes.Message * D;
  updateConversation :
    Z -> jsstring -> D -> Completion (option Conversation) * D;
  deleteConversation : Z -> D -> Completion bool * D;
  getUserSettings : Z -> D -> Completion (option UserSettings) * D
}.

Variable storage : Storage.
Variable env : Env.

(** What a request runs against; [calls] lists the storage methods
    called so far, oldest first. *)
Record Server := mkServer {
  vendors : W;
  database : D;
  calls : list StorageCall
}.

(** A vendor call leaves the database alone. *)
Definition sdk (r : Request) (s : Server) : Completion jsstring * Server :=
  let (res, w) := vendor r (vendors s) in
  (res, mkServer w (database s) (calls s)).

(** [await storage.method(...)]. *)
Definition ask {A : Type} (c : StorageCall) (method : D -> Completion A * D)
    : Task Server A :=
  fun m =>
    let (res, d) := method (database (world m)) in
    (res, mkMachine (mkServer (vendors (world m)) d (calls (world m) ++ [c]))
                    (requests m)).

Definition respond (status : nat) (body : Json) : Task Server Response :=
  ret (mkResponse status body).

(** The [authenticate] middleware in front of a handler:
    [req.session.userId] must be truthy. *)
Definition authenticate (sessionUserId : option Z)
    (handler : Z -> Task Server Response) : Task Server Response :=
  match sessionUserId with
  | Some userId =>
      if Z.eqb userId 0 then respond 401 (JsonMessage (js "Unauthorized"))
      else handler userId
  | None => respond 401 (JsonMessage (js "Unauthorized"))
  end.

(** The lookup and the ownership test the four routes start with. *)
Definition withOwnConversation (sessionUserId conversationId : Z)
    (k : Conversation -> Task Server Response) : Task Server Response :=
  conversation <- ask (GetConversation conversationId)
                      (getConversation storage conversationId) ;;
  match conversation with
  | None => respond 404 (JsonMessage (js "Conversation not found"))
  | Some conversation =>
      if negb (Z.eqb (userId conversation) sessionUserId) then
        respond 403 (JsonMessage (js "Forbidden"))
      else k conversation
  end.

(** [catch (err) { res.status(500).json({ message: err.message }) }] *)
Definition internalError (err : JsError) : Task Server Response :=
  respond 500 (JsonMessage (message err)).




(** [userSettings?.aiModel || "gpt-3.5-turbo"] *)
Definition chosenModel (userSettings : option UserSettings) : jsstring :=
  match userSettings with
  | Some settings => orElse (aiModel settings) (js "gpt-3.5-turbo")
  | None => js "gpt-3.5-turbo"
  end.

(** The block [if (conversation.title === "New Conversation") { ... }]:
    the title is generated with the default model and written back. *)
Definition refreshTitle (conversation : Conversation)
    (firstContent : jsstring) (conversationId : Z) : Task Server unit :=
  if JS.eqb (title conversation) (js "New Conversation") then
    newTitle <- generateConversationTitle sdk env firstContent None ;;
    _ <- ask (UpdateConversation conversationId newTitle)
             (updateConversation storage conversationId newTitle) ;;
    ret tt
  else ret tt.

(** POST /api/conversations/:id/messages *)
Definition postMessageRoute (sessionUserId conversationId : Z)
    (body : MessageBody) : Task Server Response :=
  catch
    (withOwnConversation sessionUserId conversationId (fun conversation =>
       userSettings <- ask (GetUserSettings sessionUserId)
                           (getUserSettings storage sessionUserId) ;;
       let aiModel := chosenModel userSettings in
       (* { ...req.body, conversationId, role: "user" } *)
       match parseInsertMessage (bodyContent body) (Some (js "user"))
                                (Some conversationId) with
       | None => respond 400 JsonValidationError
       | Some messageData =>
           userMessage <- ask (CreateMessage messageData)
                              (createMessage storage messageData) ;;
           refreshTitle conversation (content messageData) conversationId ;;
           allMessages <- ask (GetMessagesByConversationId conversationId)
                              (getMessagesByConversationId storage
                                 conversationId) ;;
           let formattedMessages := Routes.formattedMessages allMessages in
           aiResponseContent <- generateChatCompletion sdk env
                                  formattedMessages (Some aiModel) ;;
           let aiInsert :=
             mkInsert aiResponseContent (js "assistant") conversationId in
           aiMessage <- ask (CreateMessage aiInsert)
                            (createMessage storage aiInsert) ;;
           respond 201 (JsonBothMessages userMessage aiMessage)
       end))
    internalError.


(** What a vendor call leaves as it is. *)
Definition sameData (a b : Server) : Prop :=
  database a = database b /\ calls a = calls b.


End Handlers.

End Api.

(* ===================================================================== *)
(** ** A storage to run the routes on *)
(* ===================================================================== *)

Module ApiExamples.

Import AiService Api.

(** Two tables kept in memory. *)
Record Db := mkDb {
  conversations : list Conversation;
  messages : list Routes.Message
}.

Definition memory : Storage Db :=
  mkStorage
    (fun i d =>
       (Returned (find (fun c => Z.eqb (id c) i) (conversations d)), d))
    (fun i d =>
       (Returned (filter (fun x => Z.eqb (Routes.conversationId x) i)
                         (messages d)), d))
    (fun im d =>
       let row := Routes.mkMessage (Z.of_nat (S (length (messages d))))
                    (conversationId im) (role im) (content im) in
       (Returned row, mkDb (conversations d) (messages d ++ [row])))
    (fun i t d =>
       let renamed :=
         map (fun c => if Z.eqb (id c) i then mkConversation i t (userId c)
                       else c) (conversations d) in
       (Returned (find (fun c => Z.eqb (id c) i) renamed),
        mkDb renamed (messages d)))
    (fun i d =>
       (Returned (existsb (fun c => Z.eqb (id c) i) (conversations d)),
        mkDb (filter (fun c => negb (Z.eqb (id c) i)) (conversations d))
             (filter (fun x => negb (Z.eqb (Routes.conversationId x) i))
                     (messages d))))
    (fun u d =>
       (Returned (Some (mkSettings (js "system") (js "mistral:mistral-large-2"))),
        d)).

(** User 1 owns conversation 7, already titled, and conversation 8,
    still untitled; conversation 9 is user 2's. *)
Definition seeded : Db :=
  mkDb [mkConversation 7 (js "Greetings") 1;
        mkConversation 8 (js "New Conversation") 1;
        mkConversation 9 (js "Private") 2]
       [Routes.mkMessage 1 7 (js "user") (js "Hello");
        Routes.mkMessage 2 7 (js "assistant") (js "Hi there!")].

Definition booted : Machine (Server unit Db) :=
  mkMachine (mkServer tt seeded []) [].

Definition says (text : string) : MessageBody :=
  mkBody (Some (js text)) None None.

End ApiExamples.

(* ===================================================================== *)
(** ** client MessageItem.tsx: the typing animation *)
(* ===================================================================== *)

Module Typing.

(** The state the animation works on: the counter [i] of the running
    effect, the [displayedContent] and [isTyping] pieces of state,
    whether the interval is still set, and the ids [onTypingComplete]
    was called with, oldest first. *)
Record State := mkState {
  i : nat;
  displayedContent : jsstring;
  isTyping : bool;
  timer : bool;
  completed : list Z
}.

(** The effect on [isUser, isNew, message.id]: a new assistant message
    starts from the empty string, anything else shows its content. *)
Definition initialise (isUser isNew : bool) (fullContent : jsstring)
    (st : State) : State :=
  if isUser then
    mkState (i st) fullContent (isTyping st) (timer st) (completed st)
  else if isNew then
    mkState (i st) [] true (timer st) (completed st)
  else
    mkState (i st) fullContent false (timer st) (completed st).

(** The animation effect when it starts: [let i = 0] and [setInterval]
    for an assistant message that is typing. *)
Definition start (isUser : bool) (st : State) : State :=
  if isTyping st && negb isUser then
    mkState 0 (displayedContent st) (isTyping st) true (completed st)
  else st.

(** One firing of the interval, [plainTextContent.current] being [plain]
    and [messageId] the id handed to [onTypingComplete]. *)
Definition tick (plain : jsstring) (messageId : Z) (st : State) : State :=
  if timer st then
    if i st <=? length plain then
      mkState (S (i st)) (firstn (i st) plain) (isTyping st) true
              (completed st)
    else
      mkState (i st) (displayedContent st) false false
              (completed st ++ [messageId])
  else st.

(** [n] firings in a row. *)
Fixpoint ticks (n : nat) (plain : jsstring) (messageId : Z) (st : State)
    : State :=
  match n with
  | 0 => st
  | S n' => ticks n' plain messageId (tick plain messageId st)
  end.

End Typing.

(* ===================================================================== *)
(** ** client MessageInput.tsx and ChatArea: what the view is given *)
(* ===================================================================== *)

Module MessageInput.

(** The cached answer of [/api/conversations/:id], as far as the view
    reads it; [messages] may be missing. *)
Record Data := mkData {
  messages : option (list ChatContent.Message)
}.

(** [handleSubmit]: nothing is sent for a blank input; otherwise the
    trimmed input is the content. *)
Definition messageContent (message : jsstring) : option jsstring :=
  match trim message with
  | [] => None
  | content => Some content
  end.

(** The message put into the cache before the server answers. *)
Definition optimisticUserMessage (content : jsstring)
    : ChatContent.Message :=
  ChatContent.mkMessage (-1) (js "user") content.

Definition orEmpty (l : option (list ChatContent.Message)) :=
  match l with Some l' => l' | None => [] end.

(** The updater for a conversation that is already selected. *)
Definition addOptimistic (content : jsstring) (oldData : option Data)
    : option Data :=
  match oldData with
  | None => None
  | Some old =>
      Some (mkData (Some (orEmpty (messages old)
                          ++ [optimisticUserMessage content])))
  end.

(** The updater for a conversation that was just created. *)
Definition addOptimisticToNew (content : jsstring) (oldData : option Data)
    : option Data :=
  match oldData with
  | None => Some (mkData (Some [optimisticUserMessage content]))
  | Some old =>
      Some (mkData (Some (orEmpty (messages old)
                          ++ [optimisticUserMessage content])))
  end.

(** ChatArea: [conversationQuery.data?.messages || []]. *)
Definition messagesOf (data : option Data) : list ChatContent.Message :=
  match data with
  | Some d => orEmpty (messages d)
  | None => []
  end.

End MessageInput.

(* ===================================================================== *)
(** ** Runs of the animation state *)
(* ===================================================================== *)

Module Runs.

Import ChatContent.

(** What can happen to a mounted [ChatContent]. *)
Inductive Event :=
| Render (conversationId : Z) (messages : list Message)
    (messagesChanged : bool)
| TypingComplete (messageId : Z).

Definition step (st : State) (e : Event) : State :=
  match e with
  | Render conversationId messages messagesChanged =>
      render conversationId messages messagesChanged st
  | TypingComplete messageId => handleTypingComplete messageId st
  end.

Definition run (events : list Event) : State :=
  fold_left step events initial.

End Runs.

(* ===================================================================== *)
(** ** Kinds of patterns *)
(* ===================================================================== *)

Module Patterns.

Import Regex.

(** A pattern whose replacement and remainder are made of characters of
    its input. *)
Definition conservative (m : Matcher jsstring) : Prop :=
  forall s repl rest x,
    m s = Some (repl, rest) -> In x repl \/ In x rest -> In x s.

(** A pattern that never replaces a match by something longer. *)
Definition shrinking (m : Matcher jsstring) : Prop :=
  forall s repl rest,
    m s = Some (repl, rest) -> length repl + length rest <= length s.

(** A pattern whose matches begin with the character [c]. *)
Definition startsWith (c : jschar) (m : Matcher jsstring) : Prop :=
  m [] = None /\ forall c' s, c' <> c -> m (c' :: s) = None.

End Patterns.

(* ===================================================================== *)
(** ** server/openai.ts: the single-vendor module *)
(* ===================================================================== *)

Module OpenAiOnly.

Import AiService.

(** The character class of the title clean-up: one double quote (code
    unit 34) or one single quote (code unit 39). *)
Definition quote : Regex.Matcher jsstring :=
  fun s =>
    match s with
    | c :: rest => if N.eqb c 34 || N.eqb c 39 then Some ([], rest) else None
    | [] => None
    end.

Section Calls.

Variable World : Type.

(** [openai.chat.completions.create] followed by
    [response.choices[0].message.content]: the content, [None] for
    [null], or the error thrown on the way.  The temperature and the
    token limit of the request are constants of the source and are left
    to the oracle. *)
Variable create :
  jsstring -> list AIMessage -> World -> Completion (option jsstring) * World.

Definition ask (model : jsstring) (messages : list AIMessage)
    : Task World (option jsstring) :=
  fun m =>
    let (res, w) := create model messages (world m) in
    (res, mkMachine w (requests m)).

(** [content || fallback] *)
Definition contentOr (content : option jsstring) (fallback : jsstring)
    : jsstring :=
  match content with
  | Some c => orElse c fallback
  | None => fallback
  end.

Definition generateConversationTitle (firstUserMessage : jsstring)
    (model : option jsstring) : Task World jsstring :=
  let model := match model with Some m => m | None => js "gpt-3.5-turbo" end in
  catch
    (let messages :=
       [mkAIMessage System titlePromptText;
        mkAIMessage User firstUserMessage] in
     content <- ask model messages ;;
     let title := contentOr content (js "New Conversation") in
     let title := trim (Regex.replaceAll quote title) in
     ret title)
    (fun error => ret (js "New Conversation")).

End Calls.

End OpenAiOnly.

Unset Implicit Arguments.

(* ===================================================================== *)
(** * Properties *)
(* ===================================================================== *)

(** ** Strings *)

Lemma eqb_eq (a b : jsstring) : JS.eqb a b = true <-> a = b.
Proof.
revert b; induction a as [|x a IH]; intros [|y b]; simpl;
  try (split; [discriminate | congruence]); [tauto|].
rewrite andb_true_iff, N.eqb_eq, IH. split.
- intros [-> ->]; reflexivity.
- intros E; inversion E; auto.
Qed.

Lemma eqb_refl (a : jsstring) : JS.eqb a a = true.
Proof. apply eqb_eq; reflexivity. Qed.

Lemma eqb_neq (a b : jsstring) : JS.eqb a b = false <-> a <> b.
Proof.
rewrite <- eqb_eq. destruct (JS.eqb a b); split; congruence.
Qed.

(** ** Role normalisation (server) and the role test (client) *)

Section Roles.

Import AiService.

Lemma supportedRole_user : Routes.supportedRole (js "user") = User.
Proof. reflexivity. Qed.

Lemma supportedRole_assistant r :
  Routes.supportedRole r = Assistant <-> r = js "assistant".
Proof.
  unfold Routes.supportedRole.
  destruct (JS.eqb r (js "user")) eqn:Eu.
  - apply eqb_eq in Eu; subst. split; discriminate.
  - destruct (JS.eqb r (js "assistant")) eqn:Ea.
    + apply eqb_eq in Ea; subst; tauto.
    + apply eqb_neq in Ea.
      destruct (JS.eqb r (js "system")); split; intros; congruence.
Qed.

Lemma supportedRole_system r :
  Routes.supportedRole r = System <-> r = js "system".
Proof.
  unfold Routes.supportedRole.
  destruct (JS.eqb r (js "user")) eqn:Eu.
  - apply eqb_eq in Eu; subst. split; discriminate.
  - destruct (JS.eqb r (js "assistant")) eqn:Ea.
    + apply eqb_eq in Ea; subst. split; discriminate.
    + destruct (JS.eqb r (js "system")) eqn:Es.
      * apply eqb_eq in Es; tauto.
      * apply eqb_neq in Es. split; intros; congruence.
Qed.

Lemma supportedRole_default r :
  Routes.supportedRole r = User <->
  r <> js "assistant" /\ r <> js "system".
Proof.
  pose proof (supportedRole_assistant r) as A.
  pose proof (supportedRole_system r) as S.
  destruct (Routes.supportedRole r); split.
  - intros _. split; intros E; [apply A in E | apply S in E]; discriminate.
  - reflexivity.
  - discriminate.
  - intros [H _]. destruct H. apply A; reflexivity.
  - discriminate.
  - intros [_ H]. destruct H. apply S; reflexivity.
Qed.

Lemma isUser_iff r : MessageItem.isUser r = true <-> r = js "user".
Proof. apply eqb_eq. Qed.

(** C9 (as stated, refuted): a stored role outside the three known ones
    is sent to the dispatcher as [user], yet the renderer, which only
    tests [role === "user"], does not treat the message as the user's:
    the two sides do not apply the same normalisation. *)
Lemma C9_renderer_differs_on_unknown_role :
  Routes.supportedRole (js "tool") = User /\
  MessageItem.isUser (js "tool") = false /\
  MessageItem.isUser (js "tool")
    <> Role_eqb (Routes.supportedRole (js "tool")) User.
Proof. repeat split; discriminate. Qed.

(** C9 (amended): before history goes to the dispatcher every stored
    role is mapped into {user, assistant, system}: "assistant" and
    "system" are kept, everything else, recognised or not, becomes
    user, and the content is untouched.  The renderer applies no such
    mapping: it tests the stored role against "user" only, which agrees
    with the server's mapping on the three known roles. *)
Theorem C9_role_normalization (r : jsstring) (history : list Routes.Message) :
  (Routes.supportedRole r = Assistant <-> r = js "assistant") /\
  (Routes.supportedRole r = System <-> r = js "system") /\
  (Routes.supportedRole r = User <->
     r <> js "assistant" /\ r <> js "system") /\
  map role (Routes.formattedMessages history)
    = map (fun m => Routes.supportedRole (Routes.role m)) history /\
  map content (Routes.formattedMessages history)
    = map Routes.content history /\
  (MessageItem.isUser r = true <-> r = js "user") /\
  (In r [js "user"; js "assistant"; js "system"] ->
     MessageItem.isUser r = Role_eqb (Routes.supportedRole r) User).
Proof.
  split; [apply supportedRole_assistant|].
  split; [apply supportedRole_system|].
  split; [apply supportedRole_default|].
  unfold Routes.formattedMessages. rewrite !map_map. simpl.
  repeat split; try apply isUser_iff.
  intros [<-|[<-|[<-|[]]]]; reflexivity.
Qed.

Lemma C9_role_normalization_witness :
  MessageItem.isUser (js "assistant")
    = Role_eqb (Routes.supportedRole (js "assistant")) User.
Proof.
  apply (C9_role_normalization (js "assistant") []).
  simpl. right. left. reflexivity.
Defined.

End Roles.

(** ** Prompt augmentation for the providers with a system role *)

Section SystemCapable.

Import AiService.

Lemma map_rebuild (messages : list AIMessage) :
  map (fun msg => mkAIMessage (role msg) (content msg)) messages = messages.
Proof.
  induction messages as [|[r c] l IH]; simpl; [|rewrite IH]; reflexivity.
Qed.

Lemma withInstruction_absent instruction messages :
  hasSystemMessage messages = false ->
  withInstruction instruction messages
    = mkAIMessage System instruction :: messages.
Proof.
  intros H. unfold withInstruction. rewrite H. simpl.
  now rewrite map_rebuild.
Qed.

Lemma withInstruction_present instruction messages :
  hasSystemMessage messages = true ->
  Forall2 (Spec.augmented instruction) messages
          (withInstruction instruction messages).
Proof.
  intros H. unfold withInstruction. rewrite H. simpl. clear H.
  induction messages as [|[r c] l IH]; simpl; constructor; auto.
  unfold Spec.augmented. destruct r; simpl; split; reflexivity.
Qed.

Variable World : Type.
Variable sdk : Request -> World -> Completion jsstring * World.

(** C8: towards OpenAI and Mistral, a history without a system message
    is sent with a new system message carrying the instruction in
    front and is otherwise unchanged; a history with a system message
    is sent message by message with the same roles, the instruction
    appended (after a blank line) to the content of each system
    message and every other content unchanged.  These lists are what
    the two provider functions put into their request. *)
Theorem C8_system_capable_augmentation
    (messages : list AIMessage) (model : jsstring) (m : Machine World) :
  (hasSystemMessage messages = false ->
     openaiMessages messages
       = mkAIMessage System openaiInstruction :: messages /\
     mistralMessages messages
       = mkAIMessage System mistralInstruction :: messages) /\
  (hasSystemMessage messages = true ->
     Forall2 (Spec.augmented openaiInstruction) messages (openaiMessages messages) /\
     Forall2 (Spec.augmented mistralInstruction) messages (mistralMessages messages)) /\
  requests (snd (generateOpenAIChatCompletion sdk messages model m))
    = requests m ++ [OpenAIRequest model (openaiMessages messages)] /\
  requests (snd (generateMistralChatCompletion sdk messages model m))
    = requests m ++ [MistralRequest model (mistralMessages messages)].
Proof.
  split; [|split; [|split]].
  - intros H. split; apply withInstruction_absent; assumption.
  - intros H. split; apply withInstruction_present; assumption.
  - unfold generateOpenAIChatCompletion, call.
    destruct (sdk _ (world m)); reflexivity.
  - unfold generateMistralChatCompletion, call. simpl.
    destruct (sdk _ (world m)) as [[a|e] w]; reflexivity.
Qed.

End SystemCapable.

Lemma C8_system_capable_augmentation_witness :
  AiService.openaiMessages Examples.hello
    = AiService.mkAIMessage AiService.System AiService.openaiInstruction
        :: Examples.hello /\
  Forall2 (Spec.augmented AiService.mistralInstruction) Examples.primed
          (AiService.mistralMessages Examples.primed).
Proof.
  split.
  - apply (proj1 (C8_system_capable_augmentation unit Examples.allUp
                    Examples.hello (js "gpt-4o") Examples.start)).
    reflexivity.
  - apply (proj1 (proj2 (C8_system_capable_augmentation unit Examples.allUp
                           Examples.primed (js "gpt-4o") Examples.start))).
    reflexivity.
Defined.

(** ** Which message animates *)

Section Animation.

Import ChatContent.

Lemma filter_last_true {A} (f : A -> bool) before x after :
  f x = true ->
  (forall y, In y after -> f y = false) ->
  filter f (before ++ x :: after) = filter f before ++ [x].
Proof.
  intros Hx Hafter. rewrite filter_app. simpl. rewrite Hx. f_equal. f_equal.
  induction after as [|y l IH]; simpl; auto.
  rewrite (Hafter y) by (left; reflexivity).
  apply IH. intros z Hz. apply Hafter. right; assumption.
Qed.

Lemma filter_none {A} (f : A -> bool) l :
  (forall y, In y l -> f y = false) -> filter f l = [].
Proof.
  induction l as [|y l IH]; simpl; auto. intros H.
  rewrite (H y) by (left; reflexivity). apply IH; auto.
Qed.

Lemma skipn_same_length {A} (observed appended : list A) n :
  length observed = n -> skipn n (observed ++ appended) = appended.
Proof.
  intros <-. rewrite skipn_app, skipn_all, Nat.sub_diag. reflexivity.
Qed.

(** C4: in a mounted conversation (the conversation prop equals the
    recorded identity) whose recorded list is not empty, a render with
    a longer list looks only at the entries behind the recorded
    length: when the last assistant entry among them is [latest], the
    animated id becomes [latest]'s id, whatever was appended with it;
    when none of them is an assistant entry the animated id keeps its
    value.  The recorded list becomes the new list. *)
Theorem C4_growth_animates_last_new_assistant
    (conversationId : Z) (st : State) (observed appended : list Message) :
  conversationIdRef st = Some conversationId ->
  prevMessagesRef st <> [] ->
  length observed = length (prevMessagesRef st) ->
  appended <> [] ->
  let st' := render conversationId (observed ++ appended) true st in
  (forall before latest after,
      appended = before ++ latest :: after ->
      isAssistant latest = true ->
      (forall later, In later after -> isAssistant later = false) ->
      animatedMessageId st' = Some (id latest)) /\
  ((forall new, In new appended -> isAssistant new = false) ->
      animatedMessageId st' = animatedMessageId st) /\
  prevMessagesRef st' = observed ++ appended.
Proof.
  intros Hconv Hprev Hlen Happ st'.
  assert (Hst' : st' = trackMessages (observed ++ appended) st).
  { unfold st', render, resetOnSwitch. rewrite Hconv. simpl.
    rewrite Z.eqb_refl. reflexivity. }
  assert (Hpos : 0 < length (prevMessagesRef st)).
  { destruct (prevMessagesRef st); [congruence | simpl; lia]. }
  assert (Hgrow : length (prevMessagesRef st) < length (observed ++ appended)).
  { rewrite length_app, Hlen. destruct appended; [congruence | simpl; lia]. }
  assert (E1 : (length (prevMessagesRef st) =? 0) = false)
    by (apply Nat.eqb_neq; lia).
  assert (E2 : (length (prevMessagesRef st) <? length (observed ++ appended)) = true)
    by (apply Nat.ltb_lt; lia).
  rewrite Hst'. unfold trackMessages. rewrite E1, E2. simpl.
  rewrite (skipn_same_length observed appended _ Hlen).
  repeat split.
  - intros before latest after -> Hlatest Hafter.
    rewrite (filter_last_true isAssistant before latest after Hlatest Hafter).
    rewrite length_app. simpl.
    replace (length (filter isAssistant before) + 1 - 1)
      with (length (filter isAssistant before)) by lia.
    replace (0 <? length (filter isAssistant before) + 1) with true
      by (symmetry; apply Nat.ltb_lt; lia).
    rewrite nth_error_app2, Nat.sub_diag by lia. reflexivity.
  - intros Hnone. rewrite (filter_none isAssistant appended Hnone). reflexivity.
Qed.

(** C5: when the conversation prop differs from the recorded identity,
    the first effect clears the animated id, empties the recorded list
    (observed count zero) and records the new identity; the tracking
    effect then runs on that cleared state; and after the render no
    message animates, whatever the state was before. *)
Theorem C5_switch_clears_animation
    (conversationId : Z) (messages : list Message) (messagesChanged : bool)
    (st : State) :
  conversationIdRef st <> Some conversationId ->
  let cleared := mkState None [] (Some conversationId) in
  resetOnSwitch conversationId st = cleared /\
  length (prevMessagesRef (resetOnSwitch conversationId st)) = 0 /\
  render conversationId messages messagesChanged st
    = (if messagesChanged then trackMessages messages cleared else cleared) /\
  animatedMessageId (render conversationId messages messagesChanged st) = None.
Proof.
  intros Hdiff cleared.
  assert (R : resetOnSwitch conversationId st = cleared).
  { unfold resetOnSwitch, sameId.
    destruct (conversationIdRef st) as [c|]; [|reflexivity].
    destruct (Z.eqb_spec conversationId c); [subst; congruence | reflexivity]. }
  unfold render. rewrite R. repeat split.
  destruct messagesChanged; [|reflexivity].
  unfold trackMessages, cleared. simpl.
  destruct (0 <? length messages); reflexivity.
Qed.

End Animation.

(** ** The dispatcher and its fallback cascade *)

Section Dispatcher.

Import AiService.

Variable World : Type.
Variable sdk : Request -> World -> Completion jsstring * World.
Variable env : Env.

Lemma rethrow_call (r : Request) (m : Machine World) :
  catch (call sdk r) (fun error => raise error) m = call sdk r m.
Proof.
  simpl. destruct (call sdk r m) as [[a|e] m']; reflexivity.
Qed.

Lemma call_requests (r : Request) (m : Machine World) :
  requests (snd (call sdk r m)) = requests m ++ [r].
Proof.
  unfold call. destruct (sdk r (world m)); reflexivity.
Qed.

Lemma firstSuccess_requests attempts original m :
  exists k,
    requests (snd (Spec.firstSuccess sdk attempts original m))
      = requests m ++ firstn k attempts.
Proof.
  revert m; induction attempts as [|r rest IH]; intros m; simpl.
  - exists 0. now rewrite app_nil_r.
  - pose proof (call_requests r m) as Hr.
    destruct (call sdk r m) as [[a|e] m']; simpl in *.
    + exists 1. simpl. assumption.
    + destruct (IH m') as [k Hk]. exists (S k).
      rewrite Hk, Hr, <- app_assoc. reflexivity.
Qed.

Lemma firstSuccess_threw attempts original m x m' :
  Spec.firstSuccess sdk attempts original m = (Threw x, m') ->
  x = Spec.completionUnavailable original /\
  requests m' = requests m ++ attempts.
Proof.
  revert m; induction attempts as [|r rest IH]; intros m; simpl.
  - intros E; inversion E; subst. now rewrite app_nil_r.
  - pose proof (call_requests r m) as Hr.
    destruct (call sdk r m) as [[a|e] m1]; simpl in *; [discriminate|].
    intros E. destruct (IH _ E) as [-> ->].
    rewrite Hr, <- app_assoc. auto.
Qed.

Lemma handler_is_cascade provider messages error m :
  tryFallback
    (truthy (MISTRAL_API_KEY env) && negb (JS.eqb provider (js "mistral")))
    (generateMistralChatCompletion sdk messages (js "mistral-large-2"))
    (tryFallback
       (truthy (OPENAI_API_KEY env) && negb (JS.eqb provider (js "openai")))
       (generateOpenAIChatCompletion sdk messages (js "gpt-3.5-turbo"))
       (tryFallback
          (truthy (GOOGLE_API_KEY env) && negb (JS.eqb provider (js "google")))
          (generateGoogleChatCompletion sdk messages (js "gemini-2.0-flash"))
          (raise (mkError (js "Failed to generate AI response: "
                           ++ orElse (message error) (js "Unknown error"))))))
    m
  = Spec.firstSuccess sdk (Spec.eligible env provider messages) error m.
Proof.
  unfold Spec.eligible, Spec.candidates, tryFallback,
    generateMistralChatCompletion, generateGoogleChatCompletion,
    generateOpenAIChatCompletion.
  cbn [filter fst snd].
  destruct (truthy (MISTRAL_API_KEY env) && negb (JS.eqb provider (js "mistral")));
    destruct (truthy (OPENAI_API_KEY env) && negb (JS.eqb provider (js "openai")));
    destruct (truthy (GOOGLE_API_KEY env) && negb (JS.eqb provider (js "google")));
    cbn [map snd Spec.firstSuccess catch Exc_Task raise];
    repeat match goal with
      | |- context [call sdk ?r ?m] =>
          destruct (call sdk r m) as [[?|?] ?]
      end; reflexivity.
Qed.

Lemma catch_primary {A} (c : Task World A) (h : JsError -> Task World A) m :
  catch c h m =
    match c m with
    | (Returned a, m') => (Returned a, m')
    | (Threw e, m') => h e m'
    end.
Proof. reflexivity. Qed.

(** Whatever the selector, an error that leaves [generateChatCompletion]
    is the one built at the end of its handler. *)
Lemma generateChatCompletion_error_shape messages model m x m' :
  generateChatCompletion sdk env messages model m = (Threw x, m') ->
  exists original, x = Spec.completionUnavailable original.
Proof.
  unfold generateChatCompletion.
  destruct (parseSelector _) as [provider modelName].
  rewrite catch_primary.
  destruct (dispatch sdk provider modelName messages m) as [[a|e] m1];
    [discriminate|].
  rewrite handler_is_cascade. intros E.
  exists e. apply (firstSuccess_threw _ _ _ _ _ E).
Qed.

(** A provider name outside the three known ones makes no request and
    throws at once. *)
Lemma dispatch_unknown provider modelName messages m :
  provider <> js "openai" -> provider <> js "google" ->
  provider <> js "mistral" ->
  dispatch sdk provider modelName messages m
    = (Threw (mkError (js "Unsupported AI provider: " ++ provider)), m).
Proof.
  intros Ho Hg Hm. unfold dispatch.
  apply eqb_neq in Ho, Hg, Hm. rewrite Ho, Hg, Hm. reflexivity.
Qed.

(** C1: when the call routed from the selector (unset and unknown
    providers included) throws [e], the result is that of trying, one
    after the other and stopping at the first answer, the candidates
    mistral ("mistral-large-2"), openai ("gpt-3.5-turbo"), google
    ("gemini-2.0-flash") whose credential is configured and whose name is
    not the selector's provider; the requests made after the failed call
    are a prefix of that list, in that order; and when the call throws,
    every eligible candidate was tried and the error is the single one
    whose message is "Failed to generate AI response: " followed by
    [e]'s message ("Unknown error" when that message is empty). *)
Theorem C1_fallback_cascade
    (messages : list AIMessage) (model : option jsstring)
    (m m1 : Machine World) (e : JsError) :
  let selector := match model with Some s => s | None => js "gpt-4o" end in
  let provider := fst (parseSelector selector) in
  let modelName := snd (parseSelector selector) in
  let result := generateChatCompletion sdk env messages model m in
  dispatch sdk provider modelName messages m = (Threw e, m1) ->
  result = Spec.firstSuccess sdk (Spec.eligible env provider messages) e m1 /\
  (exists k, requests (snd result)
             = requests m1 ++ firstn k (Spec.eligible env provider messages)) /\
  (forall x m',
      result = (Threw x, m') ->
      x = mkError (js "Failed to generate AI response: "
                   ++ orElse (message e) (js "Unknown error")) /\
      (exists before, message x = before ++ message e) /\
      requests m' = requests m1 ++ Spec.eligible env provider messages).
Proof.
  intros selector provider modelName result Hprimary.
  assert (R : result
              = Spec.firstSuccess sdk (Spec.eligible env provider messages) e m1).
  { unfold result, generateChatCompletion. fold selector.
    unfold provider, modelName in Hprimary.
    destruct (parseSelector selector) as [p mn]. simpl in Hprimary.
    rewrite catch_primary, Hprimary. apply handler_is_cascade. }
  split; [exact R|]. split.
  - rewrite R. apply firstSuccess_requests.
  - intros x m' E. rewrite R in E.
    destruct (firstSuccess_threw _ _ _ _ _ E) as [-> Hreq].
    split; [reflexivity|]. split; [|exact Hreq].
    unfold Spec.completionUnavailable. cbn [message].
    destruct (message e) as [|c s]; cbn [orElse].
    + exists (js "Failed to generate AI response: " ++ js "Unknown error").
      now rewrite app_nil_r.
    + exists (js "Failed to generate AI response: "). reflexivity.
Qed.

(** C6: [generateConversationTitle] always returns.  When its first
    attempt returns, that is the title and nothing else is asked.  When
    it throws and the Google credential is configured, exactly one more
    request is made, to Google with "gemini-2.0-flash"; its answer is the
    title, and when it throws too the title is "New Conversation".  When
    the credential is not configured no further request is made and the
    title is "New Conversation". *)
Theorem C6_title_never_throws
    (firstUserMessage : jsstring) (model : option jsstring)
    (m : Machine World) :
  let selector := match model with Some s => s | None => js "gpt-3.5-turbo" end in
  let fallback :=
    GoogleRequest (js "gemini-2.0-flash")
      (googleContents
         [mkAIMessage User (titlePromptText ++ [LF; LF] ++ firstUserMessage)]) in
  let result := generateConversationTitle sdk env firstUserMessage model m in
  (exists title m', result = (Returned title, m')) /\
  match titlePrimary sdk firstUserMessage selector m with
  | (Returned title, m1) => result = (Returned title, m1)
  | (Threw _, m1) =>
      if truthy (GOOGLE_API_KEY env) then
        match sdk fallback (world m1) with
        | (Returned title, w2) =>
            result = (Returned title, mkMachine w2 (requests m1 ++ [fallback]))
        | (Threw _, w2) =>
            result = (Returned (js "New Conversation"),
                      mkMachine w2 (requests m1 ++ [fallback]))
        end
      else result = (Returned (js "New Conversation"), m1)
  end.
Proof.
  intros selector fallback result.
  unfold result, generateConversationTitle. fold selector.
  rewrite catch_primary.
  destruct (titlePrimary sdk firstUserMessage selector m) as [[t|e] m1].
  - split; [eauto | reflexivity].
  - unfold titleFallback, generateGoogleChatCompletion.
    destruct (truthy (GOOGLE_API_KEY env)).
    + fold fallback. cbn [bind ret catch raise Monad_Task Exc_Task].
      unfold call.
      destruct (sdk fallback (world m1)) as [[t|e'] w2];
        (split; [eauto | reflexivity]).
    + cbn. split; [eauto | reflexivity].
Qed.

Lemma title_requests_no_mistral firstUserMessage model m :
  exists made,
    requests (snd (generateConversationTitle sdk env firstUserMessage model m))
      = requests m ++ made /\
    Forall (fun r => vendorOf r <> Mistral) made.
Proof.
  unfold generateConversationTitle. rewrite catch_primary.
  set (selector := match model with Some s => s | None => _ end).
  assert (P : exists r, vendorOf r <> Mistral /\
                        titlePrimary sdk firstUserMessage selector m = call sdk r m).
  { unfold titlePrimary. destruct (parseSelector selector) as [p mn].
    destruct (JS.eqb p (js "openai")).
    - eexists; split; [|reflexivity]. discriminate.
    - destruct (JS.eqb p (js "google")).
      + eexists; split; [|apply rethrow_call]. discriminate.
      + eexists; split; [|reflexivity]. discriminate. }
  destruct P as (r & Hr & ->).
  pose proof (call_requests r m) as Hreq.
  destruct (call sdk r m) as [[t|e] m1]; simpl in Hreq.
  - exists [r]. split; [exact Hreq | repeat constructor; exact Hr].
  - unfold titleFallback, generateGoogleChatCompletion.
    destruct (truthy (GOOGLE_API_KEY env)).
    + cbn [bind ret catch raise Monad_Task Exc_Task].
      match goal with |- context [call sdk ?q m1] =>
        pose proof (call_requests q m1) as Hq;
        exists [r; q]; destruct (call sdk q m1) as [[t|e'] m2] end;
        simpl in *; rewrite Hq, Hreq, <- app_assoc;
        (split; [reflexivity | repeat constructor; [exact Hr | discriminate]]).
    + cbn. exists [r]. split; [exact Hreq | repeat constructor; exact Hr].
Qed.

(** C10: for a selector whose provider is neither "openai" nor "google"
    (so also "mistral"), the first attempt of title generation is the
    request to OpenAI with model "gpt-3.5-turbo", the same for every such
    selector; and no request of the whole title generation goes to
    Mistral. *)
Theorem C10_title_defaults_to_openai
    (firstUserMessage selector : jsstring) (m : Machine World) :
  fst (parseSelector selector) <> js "openai" ->
  fst (parseSelector selector) <> js "google" ->
  let primary :=
    OpenAIRequest (js "gpt-3.5-turbo")
      [mkAIMessage System (titlePromptText ++ [LF; LF] ++ openaiInstruction);
       mkAIMessage User firstUserMessage] in
  titlePrimary sdk firstUserMessage selector m = call sdk primary m /\
  exists later,
    requests (snd (generateConversationTitle sdk env firstUserMessage
                     (Some selector) m))
      = requests m ++ primary :: later /\
    Forall (fun r => vendorOf r = Google) later.
Proof.
  intros Ho Hg primary.
  assert (P : titlePrimary sdk firstUserMessage selector m = call sdk primary m).
  { unfold titlePrimary. destruct (parseSelector selector) as [p mn].
    simpl in Ho, Hg. apply eqb_neq in Ho, Hg. rewrite Ho, Hg. reflexivity. }
  split; [exact P|].
  unfold generateConversationTitle. rewrite catch_primary, P.
  pose proof (call_requests primary m) as Hreq.
  destruct (call sdk primary m) as [[t|e] m1]; simpl in Hreq.
  - exists []. split; [exact Hreq | constructor].
  - unfold titleFallback, generateGoogleChatCompletion.
    destruct (truthy (GOOGLE_API_KEY env)).
    + cbn [bind ret catch raise Monad_Task Exc_Task].
      match goal with |- context [call sdk ?q m1] =>
        pose proof (call_requests q m1) as Hq;
        exists [q]; destruct (call sdk q m1) as [[t|e'] m2] end;
        simpl in *; rewrite Hq, Hreq, <- app_assoc;
        (split; [reflexivity | repeat constructor]).
    + cbn. exists []. split; [exact Hreq | constructor].
Qed.

End Dispatcher.

(** ** Runs on sample inputs *)

Lemma C1_fallback_cascade_witness :
  AiService.generateChatCompletion Examples.allDown Examples.onlyMistral
    Examples.hello None Examples.start
  = (AiService.Threw
       (AiService.mkError (js "Failed to generate AI response: boom")),
     AiService.mkMachine tt
       [AiService.OpenAIRequest (js "gpt-4o")
          (AiService.openaiMessages Examples.hello);
        AiService.MistralRequest (js "mistral-large-2")
          (AiService.mistralMessages Examples.hello)]).
Proof.
  pose proof (C1_fallback_cascade unit Examples.allDown Examples.onlyMistral
                Examples.hello None Examples.start
                (AiService.mkMachine tt
                   [AiService.OpenAIRequest (js "gpt-4o")
                      (AiService.openaiMessages Examples.hello)])
                (AiService.mkError (js "boom")) eq_refl) as [R _].
  rewrite R. reflexivity.
Defined.

Lemma C10_title_defaults_to_openai_witness :
  AiService.titlePrimary Examples.allDown (js "Hello")
    (js "mistral:mistral-large-2") Examples.start
  = AiService.call Examples.allDown
      (AiService.OpenAIRequest (js "gpt-3.5-turbo")
         [AiService.mkAIMessage AiService.System
            (AiService.titlePromptText ++ [LF; LF]
               ++ AiService.openaiInstruction);
          AiService.mkAIMessage AiService.User (js "Hello")])
      Examples.start.
Proof.
  apply (C10_title_defaults_to_openai unit Examples.allDown
           Examples.onlyMistral (js "Hello") (js "mistral:mistral-large-2")
           Examples.start); vm_compute; discriminate.
Defined.

Lemma C4_growth_animates_last_new_assistant_witness :
  ChatContent.animatedMessageId
    (ChatContent.render 7 (Examples.shown ++ [Examples.arriving]) true
       Examples.watching)
  = Some 4%Z.
Proof.
  refine (proj1 (C4_growth_animates_last_new_assistant 7 Examples.watching
                   Examples.shown [Examples.arriving] eq_refl _ eq_refl _)
            [] Examples.arriving [] eq_refl eq_refl _).
  - discriminate.
  - discriminate.
  - intros later [].
Defined.

Lemma C5_switch_clears_animation_witness :
  ChatContent.animatedMessageId
    (ChatContent.render 8 Examples.shown true Examples.watching) = None.
Proof.
  apply (C5_switch_clears_animation 8 Examples.shown true Examples.watching).
  discriminate.
Defined.

(** ** The request sent to Gemini *)

Section Gemini.

Import AiService Spec.

Lemma googleStep_roles st msg :
  map grole (formattedMessages (googleStep st msg))
  = map grole (formattedMessages st)
    ++ map toGemini (filter notSystem [msg]).
Proof.
  unfold googleStep, toGemini, notSystem. destruct msg as [[| |] c]; simpl.
  - destruct (negb _ && _); simpl; rewrite map_app; reflexivity.
  - rewrite map_app; reflexivity.
  - now rewrite app_nil_r.
Qed.

Lemma googleLoop_roles messages st :
  map grole (formattedMessages (fold_left googleStep messages st))
  = map grole (formattedMessages st)
    ++ map toGemini (filter notSystem messages).
Proof.
  revert st; induction messages as [|msg l IH]; intros st; simpl.
  - now rewrite app_nil_r.
  - rewrite IH, googleStep_roles. simpl.
    destruct (notSystem msg); simpl; rewrite <- app_assoc; reflexivity.
Qed.

(** The entries sent to Gemini are, in order, the messages of the
    history that are not system messages, assistant ones labelled
    [model] and the others [user]; a history without any such message
    is sent as one [user] entry. *)
Lemma googleContents_roles messages :
  map grole (googleContents messages)
  = match filter notSystem messages with
    | [] => [GUser]
    | kept => map toGemini kept
    end.
Proof.
  unfold googleContents.
  pose proof (googleLoop_roles messages
                (mkLoop (quickQuestionsInstructions ++ [LF; LF]) [])) as H.
  simpl in H.
  set (st := fold_left googleStep messages _) in *.
  destruct (filter notSystem messages) as [|k kept] eqn:K.
  - destruct (formattedMessages st) as [|x xs] eqn:F; [|discriminate].
    simpl.
    assert (S : exists c s, systemPrompt st = c :: s).
    { subst st. clear H F.
      assert (G : forall l p, filter notSystem l = [] ->
                  p <> [] -> systemPrompt (fold_left googleStep l (mkLoop p [])) <> []).
      { clear. induction l as [|[[| |] c] l IH]; simpl; intros p Hf Hp;
          try discriminate; auto.
        unfold googleStep. simpl. apply IH; auto.
        destruct p; [congruence | discriminate]. }
      specialize (G messages (quickQuestionsInstructions ++ [LF; LF]) K).
      destruct (systemPrompt _) as [|c s]; [|eauto].
      exfalso. apply G; [discriminate | reflexivity]. }
    destruct S as (c & s & ->). reflexivity.
  - assert (L : length (formattedMessages st) = S (length kept)).
    { rewrite <- (length_map grole), H. simpl. now rewrite length_map. }
    rewrite L. simpl. exact H.
Qed.

(** C3 (the code at the failing input): for a history whose first
    message that is not a system message comes from the assistant, the
    request to Gemini holds the two messages as they are, relabelled; the
    quick-questions instruction is in no entry of it, in particular not
    in the first user entry. *)
Theorem C3_google_instruction_not_folded :
  googleContents
    [mkAIMessage Assistant (js "Hi"); mkAIMessage User (js "Hello")]
  = [mkGemini GModel [js "Hi"]; mkGemini GUser [js "Hello"]].
Proof. vm_compute. reflexivity. Qed.

(** The content of a system message that follows the first user message
    is dropped as well. *)
Lemma google_late_system_message_dropped :
  googleContents
    [mkAIMessage User (js "Hello"); mkAIMessage System (js "Be brief.")]
  = [mkGemini GUser
       [quickQuestionsInstructions ++ [LF; LF] ++ js "Hello"]].
Proof. vm_compute. reflexivity. Qed.

(** What the code does when the first message that is not a system
    message is the user's: the instruction, then the content of the
    system messages before it, then its own text. *)
Lemma google_folds_into_leading_user systems first rest :
  Forall (fun msg => role msg = System) systems ->
  role first = User ->
  exists others,
    googleContents (systems ++ first :: rest)
    = mkGemini GUser
        [quickQuestionsInstructions ++ [LF; LF]
           ++ concat (map (fun msg => content msg ++ [LF; LF]) systems)
           ++ content first]
      :: others.
Proof.
  intros Hsys Hfirst. unfold googleContents. rewrite fold_left_app.
  assert (P : forall p,
            fold_left googleStep systems (mkLoop p [])
            = mkLoop (p ++ concat (map (fun msg => content msg ++ [LF; LF]) systems)) []).
  { induction Hsys as [|[r c] l Hr _ IH]; intros p; simpl.
    - now rewrite app_nil_r.
    - simpl in Hr. subst r. unfold googleStep at 2. simpl.
      rewrite IH, <- !app_assoc. reflexivity. }
  rewrite P. cbn [fold_left].
  set (p := (quickQuestionsInstructions ++ [LF; LF])
            ++ concat (map (fun msg => content msg ++ [LF; LF]) systems)).
  assert (Hp : JS.eqb p [] = false) by (apply eqb_neq; discriminate).
  assert (S1 : googleStep (mkLoop p []) first
               = mkLoop [] [mkGemini GUser [p ++ content first]]).
  { unfold googleStep. rewrite Hfirst.
    cbn [systemPrompt formattedMessages length Nat.eqb andb].
    rewrite Hp. reflexivity. }
  rewrite S1.
  assert (Q : forall l st x xs,
            formattedMessages st = x :: xs ->
            exists ys, formattedMessages (fold_left googleStep l st) = x :: ys).
  { clear. induction l as [|msg l IH]; intros st x xs F; simpl; [eauto|].
    unfold googleStep.
    destruct (role msg); simpl; rewrite ?F; simpl;
      rewrite ?andb_false_r; simpl;
      (eapply (IH _ x); simpl; rewrite ?F; reflexivity). }
  destruct (Q rest (mkLoop [] [mkGemini GUser [p ++ content first]]) _ [] eq_refl)
    as [ys Hys].
  rewrite Hys. cbn [length Nat.eqb andb]. exists ys. unfold p.
  rewrite <- !app_assoc. reflexivity.
Qed.

End Gemini.

(** ** The plain-text projection *)

Section PlainText.

Import Regex MessageItem.

Lemma literal_cons x c s :
  literal [x] (c :: s) = if N.eqb x c then Some ([], s) else None.
Proof. unfold literal. cbn [stripPrefix]. destruct (N.eqb x c); reflexivity. Qed.

(** Removing every occurrence of one character leaves none of them. *)
Lemma replaceAll_literal_char_gone x n s :
  length s <= n -> ~ In x (replaceAllFrom n (literal [x]) s).
Proof.
  revert s; induction n as [|n IH]; intros s Hn.
  - destruct s; [simpl; tauto | simpl in Hn; lia].
  - destruct s as [|c s]; [simpl; tauto|].
    cbn [replaceAllFrom]. rewrite literal_cons. simpl in Hn.
    destruct (N.eqb_spec x c) as [->|Hne].
    + simpl. apply IH. lia.
    + simpl. intros [E|I]; [congruence|]. revert I. apply IH. lia.
Qed.

Lemma stripPrefix_head_mismatch x p c s :
  x <> c -> stripPrefix (x :: p) (c :: s) = None.
Proof.
  intros H. cbn [stripPrefix].
  destruct (N.eqb_spec x c); [contradiction | reflexivity].
Qed.

Lemma fence_needs_backtick c s : c <> backtick -> fence (c :: s) = None.
Proof.
  intros H. unfold fence, delimited.
  change (js "```") with (backtick :: [backtick; backtick]).
  rewrite stripPrefix_head_mismatch by congruence. reflexivity.
Qed.

Lemma replaceAll_fence_without_backtick n s :
  ~ In backtick s -> replaceAllFrom n fence s = s.
Proof.
  revert s; induction n as [|n IH]; intros s H; [reflexivity|].
  destruct s as [|c s]; [reflexivity|].
  cbn [replaceAllFrom]. rewrite fence_needs_backtick.
  - f_equal. apply IH. intros I. apply H. right. exact I.
  - intros E. apply H. left. exact E.
Qed.

(** The replacement of fenced code blocks never changes anything: it
    runs on a text from which every backtick has already been removed. *)
Lemma fence_step_is_identity s :
  replaceAll fence (replaceAll (literal [backtick]) s)
  = replaceAll (literal [backtick]) s.
Proof.
  unfold replaceAll at 1. apply replaceAll_fence_without_backtick.
  apply replaceAll_literal_char_gone. reflexivity.
Qed.

(** The placeholder cannot come out of the projection unless it, or
    pieces that join to it, were in the text: the step that would write
    it can be left out. *)
Lemma plainText_without_fence_step s :
  plainTextContent s
  = replaceAll heading
      (replaceAll link
         (replaceAll (literal [backtick])
            (replaceAll (literal [star])
               (replaceAll (literal [star; star]) s)))).
Proof. unfold plainTextContent. now rewrite fence_step_is_identity. Qed.

(** C7 (the code at the failing input): a display text holding a fenced
    code block is projected to the block's lines with the fence markers
    deleted; the placeholder "(code block)" does not appear. *)
Theorem C7_fenced_block_not_collapsed :
  plainTextContent (js
"Here:
```
x = 1
```")
  = js
"Here:

x = 1
" /\
  plainTextContent (js
"Here:
```
x = 1
```")
  <> js
"Here:
(code block)".
Proof. split; [vm_compute; reflexivity | vm_compute; discriminate]. Qed.

(** The other steps on a sample: emphasis and backtick markers go, a
    link keeps its text, a heading marker goes. *)
Lemma plainText_markers_sample :
  plainTextContent (js "# Title with **bold**, *italic*, `code` and [a link](http://x.y)")
  = js "Title with bold, italic, code and a link".
Proof. vm_compute. reflexivity. Qed.

End PlainText.

(** ** Searching for a delimited block *)

Section Blocks.

Import Regex.

Lemma stripPrefix_Some p s r : stripPrefix p s = Some r <-> s = p ++ r.
Proof.
  revert s; induction p as [|x p IH]; intros s; simpl.
  - split; congruence.
  - destruct s as [|c s]; [split; discriminate|].
    destruct (N.eqb_spec x c) as [->|Hne].
    + rewrite IH. split; [intros ->; reflexivity | intros E; inversion E; auto].
    + split; [discriminate | intros E; inversion E; congruence].
Qed.

Lemma stripPrefix_skipn p s r :
  stripPrefix p s = Some r -> r = skipn (length p) s.
Proof.
  intros H. apply stripPrefix_Some in H. subst s.
  rewrite skipn_app, skipn_all, Nat.sub_diag. reflexivity.
Qed.

(** [indexOf] finds an occurrence, and the leftmost one. *)
Lemma indexOf_Some p s i :
  Spec.indexOf p s = Some i ->
  s = firstn i s ++ p ++ skipn (i + length p) s /\
  (forall before after, s = before ++ p ++ after -> i <= length before).
Proof.
  revert i; induction s as [|c s IH]; intros i; cbn [Spec.indexOf].
  - destruct (stripPrefix p []) as [r|] eqn:E; [|discriminate].
    intros [= <-]. split; [|intros; lia].
    apply stripPrefix_Some in E. simpl.
    destruct p; [reflexivity | discriminate].
  - destruct (stripPrefix p (c :: s)) as [r|] eqn:E.
    + intros [= <-]. split; [|intros; lia].
      cbn [Nat.add firstn app]. rewrite <- (stripPrefix_skipn _ _ _ E).
      now apply stripPrefix_Some.
    + destruct (Spec.indexOf p s) as [j|] eqn:J; [|discriminate].
      intros [= <-]. destruct (IH j eq_refl) as [Hs Hmin]. split.
      * simpl. f_equal. exact Hs.
      * intros [|b before] after Hdec.
        -- simpl in Hdec. apply stripPrefix_Some in Hdec. congruence.
        -- simpl. inversion Hdec; subst b.
           apply le_n_S. eapply Hmin. eassumption.
Qed.

Lemma indexOf_None p s :
  Spec.indexOf p s = None -> forall before after, s <> before ++ p ++ after.
Proof.
  induction s as [|c s IH]; cbn [Spec.indexOf].
  - destruct (stripPrefix p []) as [r|] eqn:E; [discriminate|].
    intros _ [|b before] after Hdec; [|discriminate].
    simpl in Hdec. apply stripPrefix_Some in Hdec. congruence.
  - destruct (stripPrefix p (c :: s)) as [r|] eqn:E; [discriminate|].
    destruct (Spec.indexOf p s) as [j|] eqn:J; [discriminate|].
    intros _ [|b before] after Hdec.
    + simpl in Hdec. apply stripPrefix_Some in Hdec. congruence.
    + inversion Hdec. eapply IH; eauto.
Qed.

(** The lazy scan stops at the first closing literal. *)
Lemma lazyUntil_indexOf close s :
  lazyUntil close s =
    match Spec.indexOf close s with
    | Some j => Some (firstn j s, skipn (j + length close) s)
    | None => None
    end.
Proof.
  induction s as [|c s IH]; cbn [lazyUntil Spec.indexOf].
  - destruct (stripPrefix close []) as [r|] eqn:E; [|reflexivity].
    now rewrite (stripPrefix_skipn _ _ _ E).
  - destruct (stripPrefix close (c :: s)) as [r|] eqn:E.
    + now rewrite (stripPrefix_skipn _ _ _ E).
    + rewrite IH. destruct (Spec.indexOf close s) as [j|]; reflexivity.
Qed.

Lemma lazyUntil_None_tail close c s :
  lazyUntil close (c :: s) = None -> lazyUntil close s = None.
Proof.
  cbn [lazyUntil]. destruct (stripPrefix close (c :: s)); [discriminate|].
  destruct (lazyUntil close s) as [[? ?]|]; [discriminate | reflexivity].
Qed.

Lemma lazyUntil_None_skipn close k s :
  lazyUntil close s = None -> lazyUntil close (skipn k s) = None.
Proof.
  revert s; induction k as [|k IH]; intros s H; [exact H|].
  destruct s as [|c s]; [exact H|]. simpl. apply IH.
  eapply lazyUntil_None_tail; eassumption.
Qed.

Lemma lazyUntil_None_behind close n c s :
  lazyUntil close (skipn n (c :: s)) = None ->
  lazyUntil close (skipn n s) = None.
Proof.
  intros H.
  replace (skipn n s) with (skipn 1 (skipn n (c :: s)))
    by (rewrite skipn_skipn; reflexivity).
  now apply lazyUntil_None_skipn.
Qed.

(** Without a closing literal behind the first place where an opening
    one could end, the pattern matches nowhere. *)
Lemma search_delimited_None open close s :
  lazyUntil close (skipn (length open) s) = None ->
  search (delimited open close) s = None.
Proof.
  induction s as [|c s IH]; intros H; cbn [search]; unfold delimited at 1.
  - destruct (stripPrefix open []) as [r|] eqn:E; [|reflexivity].
    rewrite (stripPrefix_skipn _ _ _ E), H. reflexivity.
  - destruct (stripPrefix open (c :: s)) as [r|] eqn:E.
    + rewrite (stripPrefix_skipn _ _ _ E), H.
      rewrite IH; [reflexivity | now apply (lazyUntil_None_behind close _ c)].
    + rewrite IH; [reflexivity | now apply (lazyUntil_None_behind close _ c)].
Qed.

(** The engine's search for [open([\s\S]*?)close] finds the first [open]
    and the first [close] behind it. *)
Lemma search_delimited open close s :
  search (delimited open close) s =
    match Spec.indexOf open s with
    | Some i =>
        match lazyUntil close (skipn (i + length open) s) with
        | Some (inner, after) => Some (firstn i s, inner, after)
        | None => None
        end
    | None => None
    end.
Proof.
  induction s as [|c s IH]; cbn [search Spec.indexOf]; unfold delimited at 1.
  - destruct (stripPrefix open []) as [r|] eqn:E; [|reflexivity].
    rewrite (stripPrefix_skipn _ _ _ E). simpl.
    destruct (lazyUntil close (skipn (length open) [])) as [[? ?]|]; reflexivity.
  - destruct (stripPrefix open (c :: s)) as [r|] eqn:E.
    + rewrite (stripPrefix_skipn _ _ _ E). cbn [Nat.add firstn].
      destruct (lazyUntil close (skipn (length open) (c :: s)))
        as [[inner after]|] eqn:L; [reflexivity|].
      rewrite search_delimited_None; [reflexivity|].
      now apply (lazyUntil_None_behind close _ c).
    + rewrite IH. destruct (Spec.indexOf open s) as [i|]; [|reflexivity].
      cbn [option_map Nat.add skipn firstn].
      destruct (lazyUntil close (skipn (i + length open) s)) as [[? ?]|];
        reflexivity.
Qed.

Lemma search_quickQuestionsRe content :
  search MessageItem.quickQuestionsRe content = Spec.firstBlock content.
Proof.
  unfold MessageItem.quickQuestionsRe, Spec.firstBlock.
  rewrite search_delimited.
  destruct (Spec.indexOf MessageItem.openTag content) as [i|]; [|reflexivity].
  rewrite lazyUntil_indexOf.
  destruct (Spec.indexOf MessageItem.closeTag _); reflexivity.
Qed.

(** The pattern without the group matches at the same places. *)
Lemma search_quickQuestionsBlock content :
  search MessageItem.quickQuestionsBlock content =
    match search MessageItem.quickQuestionsRe content with
    | Some (before, _, after) => Some (before, [], after)
    | None => None
    end.
Proof.
  induction content as [|c s IH]; cbn [search];
    unfold MessageItem.quickQuestionsBlock at 1,
           MessageItem.quickQuestionsRe at 1.
  - destruct (delimited _ _ []) as [[? ?]|]; reflexivity.
  - destruct (delimited _ _ (c :: s)) as [[? ?]|]; [reflexivity|].
    rewrite IH.
    destruct (search MessageItem.quickQuestionsRe s) as [[[? ?] ?]|];
      reflexivity.
Qed.

End Blocks.

(** ** Trimming and lines *)

Section Trimming.

Import Spec.

Lemma trimStart_app_blank a b : blank a -> trimStart (a ++ b) = trimStart b.
Proof.
  unfold blank. induction a as [|c a IH]; simpl; [reflexivity|].
  destruct (isWhiteSpace c); simpl; [exact IH | discriminate].
Qed.

Lemma trimStart_blank a : blank a -> trimStart a = [].
Proof.
  intros H. rewrite <- (app_nil_r a). now rewrite trimStart_app_blank.
Qed.

Lemma trimStart_app_inked a b :
  forallb isWhiteSpace a = false -> trimStart (a ++ b) = trimStart a ++ b.
Proof.
  induction a as [|c a IH]; simpl; [discriminate|].
  destruct (isWhiteSpace c); simpl; [exact IH | reflexivity].
Qed.

Lemma trimStart_cut s : exists w, blank w /\ s = w ++ trimStart s.
Proof.
  unfold blank. induction s as [|c s (w & Hw & Hs)]; [exists []; auto|].
  simpl. destruct (isWhiteSpace c) eqn:E.
  - exists (c :: w). simpl. rewrite E, Hw. split; [reflexivity | congruence].
  - exists []. auto.
Qed.

Lemma blank_rev w : blank w -> blank (rev w).
Proof.
  unfold blank. rewrite !forallb_forall. intros H c Hc.
  apply H. now apply in_rev.
Qed.

Lemma trimEnd_app_blank a b : blank b -> trimEnd (a ++ b) = trimEnd a.
Proof.
  intros H. unfold trimEnd. rewrite rev_app_distr.
  now rewrite trimStart_app_blank by now apply blank_rev.
Qed.

Lemma trimEnd_cut s : exists w, blank w /\ s = trimEnd s ++ w.
Proof.
  destruct (trimStart_cut (rev s)) as (w & Hw & Hs).
  exists (rev w). split; [now apply blank_rev|].
  unfold trimEnd. rewrite <- rev_app_distr, <- Hs. now rewrite rev_involutive.
Qed.

Lemma trim_app_blank_l a b : blank a -> trim (a ++ b) = trim b.
Proof. intros H. unfold trim. now rewrite trimStart_app_blank. Qed.

Lemma trim_blank a : blank a -> trim a = [].
Proof. intros H. unfold trim. now rewrite trimStart_blank. Qed.

Lemma trim_app_blank_r a b : blank b -> trim (a ++ b) = trim a.
Proof.
  intros H. unfold trim. destruct (forallb isWhiteSpace a) eqn:A.
  - rewrite trimStart_app_blank, (trimStart_blank b), (trimStart_blank a);
      auto.
  - rewrite trimStart_app_inked by exact A. now apply trimEnd_app_blank.
Qed.

(** [trim] cuts blank text off both ends and nothing else. *)
Lemma trim_cut s :
  exists l r, blank l /\ blank r /\ s = l ++ trim s ++ r.
Proof.
  destruct (trimStart_cut s) as (l & Hl & Hs).
  destruct (trimEnd_cut (trimStart s)) as (r & Hr & Ht).
  exists l, r. repeat split; auto.
  unfold trim. rewrite <- Ht. exact Hs.
Qed.

Lemma split_app sep x y :
  exists lx a b ly,
    split sep x = lx ++ [a] /\
    split sep y = b :: ly /\
    split sep (x ++ y) = lx ++ (a ++ b) :: ly.
Proof.
  induction x as [|c x (lx & a & b & ly & Hx & Hy & Hxy)].
  - destruct (split sep y) as [|b ly] eqn:Hy.
    + destruct y as [|c y]; simpl in Hy; [discriminate|].
      destruct (N.eqb c sep); [discriminate|].
      destruct (split sep y); discriminate.
    + exists [], [], b, ly. auto.
  - cbn [app split]. destruct (N.eqb c sep).
    + exists ([] :: lx), a, b, ly. rewrite Hx, Hxy. auto.
    + rewrite Hx, Hxy. destruct lx as [|h lt]; simpl.
      * exists [], (c :: a), b, ly. auto.
      * exists ((c :: h) :: lt), a, b, ly. auto.
Qed.

Lemma split_blank w : blank w -> Forall blank (split LF w).
Proof.
  unfold blank. induction w as [|c w IH]; simpl; [repeat constructor|].
  destruct (isWhiteSpace c) eqn:E; simpl; [|discriminate].
  intros H. specialize (IH H). destruct (N.eqb c LF).
  - constructor; [reflexivity | exact IH].
  - destruct (split LF w) as [|h t]; [repeat constructor; simpl; now rewrite E|].
    inversion IH; subst. constructor; [simpl; rewrite E; assumption | assumption].
Qed.

Lemma trimmedLines_blank l : Forall blank l ->
  filter (fun line => negb (JS.eqb line [])) (map trim l) = [].
Proof.
  induction 1 as [|w l Hw _ IH]; simpl; [reflexivity|].
  rewrite (trim_blank w Hw). exact IH.
Qed.

(** Blank text around a text adds no line that survives. *)
Lemma trimmedLines_app_blank_r x w :
  blank w -> Spec.trimmedLines (x ++ w) = Spec.trimmedLines x.
Proof.
  intros Hw. unfold Spec.trimmedLines.
  destruct (split_app LF x w) as (lx & a & b & ly & -> & Hy & ->).
  pose proof (split_blank w Hw) as B. rewrite Hy in B. inversion B; subst.
  rewrite !map_app, !filter_app. f_equal. simpl.
  rewrite (trim_app_blank_r a b) by assumption.
  rewrite (trimmedLines_blank ly) by assumption. reflexivity.
Qed.

Lemma trimmedLines_app_blank_l w y :
  blank w -> Spec.trimmedLines (w ++ y) = Spec.trimmedLines y.
Proof.
  intros Hw. unfold Spec.trimmedLines.
  destruct (split_app LF w y) as (lw & a & b & ly & Hx & -> & ->).
  pose proof (split_blank w Hw) as B. rewrite Hx in B.
  apply Forall_app in B. destruct B as [Blw Ba]. inversion Ba; subst.
  rewrite !map_app, !filter_app. rewrite (trimmedLines_blank lw) by assumption.
  simpl. rewrite (trim_app_blank_l a b) by assumption. reflexivity.
Qed.

Lemma trimmedLines_trim text :
  Spec.trimmedLines (trim text) = Spec.trimmedLines text.
Proof.
  destruct (trim_cut text) as (l & r & Hl & Hr & E).
  rewrite E at 2.
  rewrite trimmedLines_app_blank_l, trimmedLines_app_blank_r by assumption.
  reflexivity.
Qed.

(** The questions the code extracts from the trimmed group are the
    trimmed, non-blank lines of the group itself. *)
Lemma questionLines_trim group :
  MessageItem.questionLines (trim group) = Spec.trimmedLines group.
Proof.
  rewrite <- trimmedLines_trim.
  unfold MessageItem.questionLines, Spec.trimmedLines.
  apply filter_ext. intros [|c q]; reflexivity.
Qed.

End Trimming.

(** ** Parsing an assistant message *)

Section QuickQuestions.

Import Regex MessageItem.

(** What [firstBlock] returns is a cut of the content at its first
    opening tag and at the first closing tag behind it. *)
Lemma firstBlock_Some content before inner after :
  Spec.firstBlock content = Some (before, inner, after) ->
  content = before ++ openTag ++ inner ++ closeTag ++ after /\
  (forall b a, content = b ++ openTag ++ a -> length before <= length b) /\
  (forall b a, inner ++ closeTag ++ after = b ++ closeTag ++ a ->
               length inner <= length b).
Proof.
  unfold Spec.firstBlock.
  destruct (Spec.indexOf openTag content) as [i|] eqn:I; [|discriminate].
  destruct (indexOf_Some _ _ _ I) as [Hc Hmin].
  remember (skipn (i + length openTag) content) as rest eqn:Hrest.
  destruct (Spec.indexOf closeTag rest) as [j|] eqn:J; [|discriminate].
  intros [= <- <- <-].
  destruct (indexOf_Some _ _ _ J) as [Hr Hmin'].
  change (length closeTag) with 18 in Hr. rewrite <- Hr.
  assert (Li : length (firstn i content) = i).
  { rewrite length_firstn. apply Nat.min_l.
    destruct (Nat.le_gt_cases i (length content)) as [Hle|Hgt]; [exact Hle|].
    exfalso. apply (f_equal (@length _)) in Hc.
    rewrite firstn_all2 in Hc by lia.
    rewrite !length_app in Hc. simpl in Hc. lia. }
  assert (Lj : length (firstn j rest) = j).
  { rewrite length_firstn. apply Nat.min_l.
    destruct (Nat.le_gt_cases j (length rest)) as [Hle|Hgt]; [exact Hle|].
    exfalso. apply (f_equal (@length _)) in Hr.
    rewrite firstn_all2 in Hr by lia.
    rewrite !length_app in Hr. simpl in Hr. lia. }
  split; [exact Hc|]. split.
  - intros b a E. rewrite Li. eapply Hmin. exact E.
  - intros b a E. rewrite Lj. eapply Hmin'. exact E.
Qed.

(** Without a first block there is no block at all. *)
Lemma firstBlock_None content :
  Spec.firstBlock content = None ->
  forall before inner after,
    content <> before ++ openTag ++ inner ++ closeTag ++ after.
Proof.
  unfold Spec.firstBlock.
  destruct (Spec.indexOf openTag content) as [i|] eqn:I.
  - set (rest := skipn (i + length openTag) content).
    destruct (Spec.indexOf closeTag rest) as [j|] eqn:J; [discriminate|].
    intros _ before inner after E.
    destruct (indexOf_Some _ _ _ I) as [_ Hmin].
    specialize (Hmin _ _ E).
    apply (indexOf_None _ _ J
             (skipn (i + length openTag) (before ++ openTag) ++ inner) after).
    unfold rest. rewrite E at 1.
    rewrite (app_assoc before openTag), skipn_app.
    replace (i + length openTag - length (before ++ openTag)) with 0
      by (rewrite length_app; lia).
    rewrite <- app_assoc. reflexivity.
  - intros _ before inner after E.
    exact (indexOf_None _ _ I before (inner ++ closeTag ++ after) E).
Qed.

(** What the code does with a block whose inner text is empty: nothing
    is removed and nothing extracted. *)
Lemma parseAssistant_empty_block :
  parseAssistant (js "Done.<QUICK_QUESTIONS></QUICK_QUESTIONS>")
  = mkParsed (js "Done.<QUICK_QUESTIONS></QUICK_QUESTIONS>") [].
Proof. vm_compute. reflexivity. Qed.

(** C2 (as stated, refuted): on the content of scenario A the first
    block is preceded by "Hi there!" and a line break and followed by
    nothing, so the content with the block removed ends in a line break;
    the display text does not. *)
Lemma C2_display_text_is_not_plain_removal :
  Spec.firstBlock Examples.scenarioA
    = Some (js "Hi there!" ++ [LF],
            [LF] ++ js "How are you?" ++ [LF] ++ js "What's new?" ++ [LF]
              ++ js "Tell me more" ++ [LF] ++ js "Anything else?" ++ [LF],
            []) /\
  cleanContent (parseAssistant Examples.scenarioA) = js "Hi there!" /\
  cleanContent (parseAssistant Examples.scenarioA)
    <> (js "Hi there!" ++ [LF]) ++ [].
Proof.
  split; [vm_compute; reflexivity|].
  split; [vm_compute; reflexivity | vm_compute; discriminate].
Qed.

(** C2 (amended): the parser cuts the content at its first
    quick-questions block.  When there is one and its inner text is not
    empty, the questions are the lines of the inner text, trimmed, blank
    ones dropped, and the display text is the content without the block
    (delimiters included), trimmed.  When there is none, there are no
    questions and the display text is the content itself.  A message
    whose role is "assistant" is parsed this way, and scenario A gives
    "Hi there!" with its four questions. *)
Theorem C2_quick_questions_parse (content : jsstring) (st : Parsed) :
  (forall before inner after,
      Spec.firstBlock content = Some (before, inner, after) ->
      inner <> [] ->
      parseAssistant content
        = mkParsed (trim (before ++ after)) (Spec.trimmedLines inner)) /\
  (Spec.firstBlock content = None ->
      parseAssistant content = mkParsed content []) /\
  processContent (js "assistant") content st = parseAssistant content /\
  parseAssistant Examples.scenarioA
    = mkParsed (js "Hi there!")
        [js "How are you?"; js "What's new?"; js "Tell me more";
         js "Anything else?"].
Proof.
  split; [|split; [|split]].
  - intros before inner after H Hne.
    unfold parseAssistant. rewrite search_quickQuestionsRe, H.
    destruct inner as [|c inner]; [congruence|].
    rewrite questionLines_trim. f_equal. f_equal.
    unfold replaceFirst.
    rewrite search_quickQuestionsBlock, search_quickQuestionsRe, H.
    reflexivity.
  - intros H. unfold parseAssistant.
    rewrite search_quickQuestionsRe, H. reflexivity.
  - reflexivity.
  - vm_compute. reflexivity.
Qed.

End QuickQuestions.

Lemma C2_quick_questions_parse_witness :
  MessageItem.parseAssistant Examples.scenarioA
  = MessageItem.mkParsed
      (trim ((js "Hi there!" ++ [LF]) ++ []))
      (Spec.trimmedLines
         ([LF] ++ js "How are you?" ++ [LF] ++ js "What's new?" ++ [LF]
          ++ js "Tell me more" ++ [LF] ++ js "Anything else?" ++ [LF])).
Proof.
  apply (proj1 (C2_quick_questions_parse Examples.scenarioA
                  (MessageItem.mkParsed [] []))).
  - vm_compute. reflexivity.
  - discriminate.
Defined.

(** ** Global replacement terminates within its fuel *)

Section Fuel.

Import Regex MessageItem.

(** With the fuel [replaceAll] gives, or any larger amount, the scan of a
    consuming pattern reaches the end of the text. *)
Lemma replaceAllFrom_enough m :
  consuming m ->
  forall n n' s, length s <= n -> length s <= n' ->
    replaceAllFrom n m s = replaceAllFrom n' m s.
Proof.
  intros Hm. induction n as [|n IH]; intros n' s Hn Hn'.
  - destruct s; [|simpl in Hn; lia]. destruct n'; reflexivity.
  - destruct s as [|c s]; [destruct n'; reflexivity|].
    destruct n' as [|n']; [simpl in Hn'; lia|].
    cbn [replaceAllFrom]. simpl in Hn, Hn'.
    destruct (m (c :: s)) as [[repl rest]|] eqn:E.
    + apply Hm in E. simpl in E. f_equal. apply IH; lia.
    + f_equal. apply IH; lia.
Qed.

Lemma stripPrefix_length p s r :
  stripPrefix p s = Some r -> length s = length p + length r.
Proof.
  intros H. apply stripPrefix_Some in H. subst. apply length_app.
Qed.

Lemma lazyUntil_length close s inner rest :
  lazyUntil close s = Some (inner, rest) ->
  length s = length inner + length close + length rest.
Proof.
  revert inner; induction s as [|c s IH]; intros inner; cbn [lazyUntil].
  - destruct (stripPrefix close []) eqn:E; [|discriminate].
    intros [= <- <-]. now apply stripPrefix_length.
  - destruct (stripPrefix close (c :: s)) eqn:E.
    + intros [= <- <-]. now apply stripPrefix_length.
    + destruct (lazyUntil close s) as [[i r]|]; [|discriminate].
      intros [= <- <-]. simpl. rewrite (IH i eq_refl). reflexivity.
Qed.

Lemma literal_consuming p : p <> [] -> consuming (literal p).
Proof.
  intros Hp s repl rest. unfold literal.
  destruct (stripPrefix p s) eqn:E; [|discriminate].
  intros [= <- <-]. apply stripPrefix_length in E.
  destruct p; [congruence | simpl in E; lia].
Qed.

Lemma fence_consuming : consuming fence.
Proof.
  intros s repl rest. unfold fence, delimited.
  destruct (stripPrefix (js "```") s) as [s1|] eqn:E; [|discriminate].
  destruct (lazyUntil (js "```") s1) as [[inner r]|] eqn:L; [|discriminate].
  intros [= <- <-].
  apply stripPrefix_length in E. apply lazyUntil_length in L.
  simpl in E, L. lia.
Qed.

Lemma runNot_length x s :
  length s = length (fst (runNot x s)) + length (snd (runNot x s)).
Proof.
  induction s as [|c s IH]; simpl; [reflexivity|].
  destruct (N.eqb c x); [reflexivity|].
  destruct (runNot x s); simpl in *. lia.
Qed.

Lemma link_consuming : consuming link.
Proof.
  intros s repl rest. unfold link.
  destruct s as [|c s1]; [discriminate|].
  destruct (N.eqb c lbracket); [|discriminate].
  pose proof (runNot_length rbracket s1) as L1.
  destruct (runNot rbracket s1) as [[|t text] [|c1 [|c2 s2]]];
    try discriminate.
  destruct (N.eqb c1 rbracket && N.eqb c2 lparen); [|discriminate].
  pose proof (runNot_length rparen s2) as L2.
  destruct (runNot rparen s2) as [[|u url] [|c3 s3]]; try discriminate.
  destruct (N.eqb c3 rparen); [|discriminate].
  intros [= <- <-]. simpl in *. lia.
Qed.

Lemma hashesThenSpace_length n s rest :
  hashesThenSpace n s = Some rest -> length rest < length s.
Proof.
  assert (Sp : forall s rest,
             match s with
             | c :: s' => if isWhiteSpace c then Some s' else None
             | [] => None
             end = Some rest -> length rest < length s).
  { intros [|c s'] r; [discriminate|].
    destruct (isWhiteSpace c); [|discriminate].
    intros [= <-]. simpl. lia. }
  revert s rest; induction n as [|n IH]; intros s rest; cbn [hashesThenSpace].
  - apply Sp.
  - destruct s as [|c s']; [discriminate|].
    destruct (N.eqb c hash).
    + destruct (hashesThenSpace n s') as [r|] eqn:E.
      * intros [= <-]. apply IH in E. simpl. lia.
      * apply (Sp (c :: s')).
    + apply (Sp (c :: s')).
Qed.

Lemma heading_consuming : consuming heading.
Proof.
  intros s repl rest. unfold heading.
  destruct s as [|c s']; [discriminate|].
  destruct (N.eqb c hash); [|discriminate].
  destruct (hashesThenSpace 5 s') as [r|] eqn:E; [|discriminate].
  intros [= <- <-]. apply hashesThenSpace_length in E. simpl. lia.
Qed.

End Fuel.

(** ** Further facts about the animation state and the dispatcher *)

Section Extras.

Import ChatContent.

(** The first list seen in a conversation is history: nothing starts to
    animate. *)
Lemma initial_load_is_history messages st :
  prevMessagesRef st = [] -> messages <> [] ->
  trackMessages messages st
  = mkState (animatedMessageId st) messages (conversationIdRef st).
Proof.
  intros Hprev Hne. unfold trackMessages. rewrite Hprev.
  destruct messages; [congruence | reflexivity].
Qed.

(** A completion signal clears the animation only when it comes from the
    message that animates. *)
Lemma handleTypingComplete_spec messageId st :
  animatedMessageId (handleTypingComplete messageId st)
  = if sameId messageId (animatedMessageId st) then None
    else animatedMessageId st.
Proof.
  unfold handleTypingComplete.
  destruct (sameId messageId (animatedMessageId st)); reflexivity.
Qed.

(** Two messages that animate at once have the same id. *)
Lemma one_message_animates st a b :
  isNew st a = true -> isNew st b = true -> id a = id b.
Proof.
  unfold isNew, sameId. intros Ha Hb.
  apply andb_true_iff in Ha, Hb. destruct Ha as [_ Ha], Hb as [_ Hb].
  destruct (animatedMessageId st) as [x|]; [|discriminate].
  apply Z.eqb_eq in Ha, Hb. congruence.
Qed.

Import AiService.

(** When the routed call answers, that answer is the result and no
    fallback is asked. *)
Lemma generateChatCompletion_primary_answer
    (World : Type) (sdk : Request -> World -> Completion jsstring * World)
    (env : Env) messages model m answer m1 :
  let selector := match model with Some s => s | None => js "gpt-4o" end in
  dispatch sdk (fst (parseSelector selector)) (snd (parseSelector selector))
    messages m = (Returned answer, m1) ->
  generateChatCompletion sdk env messages model m = (Returned answer, m1).
Proof.
  intros selector H. unfold generateChatCompletion. fold selector.
  destruct (parseSelector selector) as [p mn]. simpl in H.
  rewrite catch_primary, H. reflexivity.
Qed.

End Extras.

(* ===================================================================== *)
(** * Further properties of the code *)
(* ===================================================================== *)

(** ** The models offered and the selectors they stand for *)

Section OfferedModels.

Import AiService Models.

Variable World : Type.
Variable sdk : Request -> World -> Completion jsstring * World.

(** X1: the listing is never empty, and it is the single placeholder
    exactly when no credential is configured. *)
Theorem getAvailableModels_placeholder (env : Env) :
  getAvailableModels env <> [] /\
  (getAvailableModels env
     = [mkModel (js "openai:gpt-3.5-turbo") (js "GPT-3.5 (requires API key)")
                (js "openai")]
   <-> configured env OpenAI = false /\ configured env Google = false
       /\ configured env Mistral = false).
Proof.
  unfold getAvailableModels, configured.
  destruct (truthy (OPENAI_API_KEY env)), (truthy (GOOGLE_API_KEY env)),
    (truthy (MISTRAL_API_KEY env)); simpl;
    (split; [discriminate|]); split; intros H;
    try discriminate; try (destruct H as (?&?&?); discriminate); auto.
Qed.

Ltac eval_selector :=
  match goal with
  | |- context [parseSelector ?s] =>
      let v := eval vm_compute in (parseSelector s) in
      change (parseSelector s) with v
  end.

(** X2: every listed entry is a selector the dispatcher knows: its id parses
    to its provider field, the routed call is one request to that vendor
    for the model after the colon, and unless nothing is configured the
    vendor's credential is. *)
Theorem listed_model_is_routed (env : Env) (messages : list AIMessage)
    (model : Model) (m : Machine World) :
  In model (getAvailableModels env) ->
  fst (parseSelector (id model)) = provider model /\
  (exists r,
      dispatch sdk (fst (parseSelector (id model)))
        (snd (parseSelector (id model))) messages m = call sdk r m /\
      vendorName (vendorOf r) = provider model /\
      selectorOf r = id model /\
      (configured env (vendorOf r) = true \/
       forall v, configured env v = false)).
Proof.
  unfold getAvailableModels, configured.
  destruct (truthy (OPENAI_API_KEY env)) eqn:Ho,
    (truthy (GOOGLE_API_KEY env)) eqn:Hg,
    (truthy (MISTRAL_API_KEY env)) eqn:Hm; simpl;
    intros H;
    repeat match type of H with
      | _ \/ _ => destruct H as [H|H]
      | False => destruct H
      end; subst model; cbn [id provider]; eval_selector; cbn [fst snd];
    (split; [reflexivity|]);
    unfold dispatch;
    repeat match goal with
      | |- context [JS.eqb ?a ?b] =>
          let v := eval vm_compute in (JS.eqb a b) in
          change (JS.eqb a b) with v; cbv iota
      end;
    unfold generateOpenAIChatCompletion, generateGoogleChatCompletion,
      generateMistralChatCompletion;
    rewrite ?rethrow_call;
    (eexists; split; [reflexivity|]);
    (split; [reflexivity|]); (split; [reflexivity|]);
    cbn [vendorOf]; rewrite ?Ho, ?Hg, ?Hm;
    try (left; reflexivity);
    right; intros [| |]; first [assumption | reflexivity].
Qed.

Lemma split_without_sep sep s : ~ In sep s -> split sep s = [s].
Proof.
  induction s as [|c s IH]; intros H; [reflexivity|].
  cbn [split]. destruct (N.eqb_spec c sep) as [->|Hne].
  - exfalso. apply H. left. reflexivity.
  - rewrite IH; [reflexivity|]. intros I. apply H. right. exact I.
Qed.

Lemma split_at_first_sep sep p rest :
  ~ In sep p -> split sep (p ++ sep :: rest) = p :: split sep rest.
Proof.
  induction p as [|c p IH]; intros H; cbn [app split].
  - rewrite N.eqb_refl. reflexivity.
  - destruct (N.eqb_spec c sep) as [->|Hne].
    + exfalso. apply H. left. reflexivity.
    + rewrite IH; [reflexivity|]. intros I. apply H. right. exact I.
Qed.

Lemma includes_iff c s : includes c s = true <-> In c s.
Proof.
  unfold includes. rewrite existsb_exists. split.
  - intros (x & Hx & E). apply N.eqb_eq in E. now subst.
  - intros H. exists c. split; [exact H | apply N.eqb_refl].
Qed.

(** X3: a selector is read back as it was put together: a name without a
    colon alone is a model of openai; [provider:model] gives both parts;
    and whatever follows a second colon is dropped. *)
Theorem parseSelector_round_trip (provider model more : jsstring) :
  ~ In colon provider -> ~ In colon model ->
  parseSelector model = (js "openai", model) /\
  parseSelector (provider ++ colon :: model) = (provider, model) /\
  parseSelector (provider ++ colon :: model ++ colon :: more)
    = (provider, model).
Proof.
  intros Hp Hm. unfold parseSelector. repeat split.
  - destruct (includes colon model) eqn:E; [|reflexivity].
    apply includes_iff in E. contradiction.
  - replace (includes colon (provider ++ colon :: model)) with true.
    + rewrite split_at_first_sep, split_without_sep by assumption. reflexivity.
    + symmetry. apply includes_iff, in_or_app. right. left. reflexivity.
  - replace (includes colon (provider ++ colon :: model ++ colon :: more))
      with true.
    + rewrite split_at_first_sep, split_at_first_sep by assumption.
      reflexivity.
    + symmetry. apply includes_iff, in_or_app. right. left. reflexivity.
Qed.

End OfferedModels.

Lemma parseSelector_round_trip_witness :
  AiService.parseSelector (js "google:gemini-2.0-flash")
  = (js "google", js "gemini-2.0-flash").
Proof.
  apply (parseSelector_round_trip (js "google") (js "gemini-2.0-flash") []);
    vm_compute; intuition discriminate.
Defined.

Lemma listed_model_is_routed_witness :
  fst (AiService.parseSelector (js "mistral:mistral-large-2")) = js "mistral".
Proof.
  apply (listed_model_is_routed unit Examples.allUp Examples.onlyMistral
           Examples.hello
           (Models.mkModel (js "mistral:mistral-large-2")
              (js "Mistral Large 2") (js "mistral"))
           Examples.start).
  vm_compute. left. reflexivity.
Defined.

(** ** How many requests a completion costs *)

Section Requests.

Import AiService Models.

Variable World : Type.
Variable sdk : Request -> World -> Completion jsstring * World.
Variable env : Env.

Lemma eligible_vendors provider messages :
  map vendorOf (Spec.eligible env provider messages)
  = filter (fun v => configured env v
                     && negb (JS.eqb provider (vendorName v)))
           [Mistral; OpenAI; Google].
Proof.
  unfold Spec.eligible, Spec.candidates. cbn [filter fst snd configured vendorName].
  destruct (truthy (MISTRAL_API_KEY env) && negb (JS.eqb provider (js "mistral"))),
    (truthy (OPENAI_API_KEY env) && negb (JS.eqb provider (js "openai"))),
    (truthy (GOOGLE_API_KEY env) && negb (JS.eqb provider (js "google")));
    reflexivity.
Qed.

Lemma NoDup_vendors : NoDup [Mistral; OpenAI; Google].
Proof.
  repeat constructor; simpl; intuition discriminate.
Qed.

Lemma eligible_prefix_NoDup provider messages k :
  NoDup (map vendorOf (firstn k (Spec.eligible env provider messages))).
Proof.
  rewrite <- firstn_map, eligible_vendors.
  eapply NoDup_app_remove_r with (l' := skipn k _).
  rewrite firstn_skipn. apply NoDup_filter, NoDup_vendors.
Qed.

Lemma in_firstn_in {A} (x : A) k l : In x (firstn k l) -> In x l.
Proof.
  intros H. rewrite <- (firstn_skipn k l). apply in_or_app. now left.
Qed.

Lemma eligible_excludes_provider provider messages v k :
  vendorName v = provider ->
  ~ In v (map vendorOf (firstn k (Spec.eligible env provider messages))).
Proof.
  intros Hv I. rewrite <- firstn_map, eligible_vendors in I.
  apply in_firstn_in in I. apply filter_In in I. destruct I as [_ I].
  rewrite <- Hv, eqb_refl, andb_false_r in I. discriminate.
Qed.

Lemma dispatch_cases provider modelName messages m :
  (exists r, vendorName (vendorOf r) = provider /\
             requestModel r = modelName /\
             dispatch sdk provider modelName messages m = call sdk r m) \/
  dispatch sdk provider modelName messages m
    = (Threw (mkError (js "Unsupported AI provider: " ++ provider)), m).
Proof.
  unfold dispatch.
  destruct (JS.eqb provider (js "openai")) eqn:Eo.
  { apply eqb_eq in Eo. left. eexists. repeat split; [|reflexivity].
    now subst. }
  destruct (JS.eqb provider (js "google")) eqn:Eg.
  { apply eqb_eq in Eg. left. eexists. split; [|split; [|apply rethrow_call]].
    - now subst.
    - reflexivity. }
  destruct (JS.eqb provider (js "mistral")) eqn:Em.
  { apply eqb_eq in Em. left. eexists. split; [|split; [|apply rethrow_call]].
    - now subst.
    - reflexivity. }
  right. reflexivity.
Qed.

(** X4: one call of [generateChatCompletion] asks each vendor at most once,
    so it makes at most three requests, whatever the selector, the
    credentials and the vendors' answers. *)
Theorem generateChatCompletion_asks_each_vendor_once
    (messages : list AIMessage) (model : option jsstring) (m : Machine World) :
  exists made,
    requests (snd (generateChatCompletion sdk env messages model m))
      = requests m ++ made /\
    NoDup (map vendorOf made) /\
    length made <= 3.
Proof.
  assert (Bound : forall l : list Vendor, NoDup l -> length l <= 3).
  { intros l Hl.
    apply (NoDup_incl_length Hl (l' := [Mistral; OpenAI; Google])).
    intros [| |] _; simpl; auto. }
  assert (Main : exists made,
             requests (snd (generateChatCompletion sdk env messages model m))
               = requests m ++ made /\
             NoDup (map vendorOf made)).
  { unfold generateChatCompletion.
    destruct (parseSelector _) as [provider modelName].
    rewrite catch_primary.
    destruct (dispatch_cases provider modelName messages m)
      as [(r & Hv & _ & ->)| ->].
    - pose proof (call_requests World sdk r m) as Hr.
      destruct (call sdk r m) as [[a|e] m1]; simpl in Hr.
      + exists [r]. split; [exact Hr|]. repeat constructor. simpl. tauto.
      + rewrite handler_is_cascade.
        destruct (firstSuccess_requests World sdk
                    (Spec.eligible env provider messages) e m1) as [k Hk].
        exists (r :: firstn k (Spec.eligible env provider messages)).
        split.
        * rewrite Hk, Hr, <- app_assoc. reflexivity.
        * cbn [map]. constructor.
          -- now apply eligible_excludes_provider.
          -- apply eligible_prefix_NoDup.
    - rewrite handler_is_cascade.
      destruct (firstSuccess_requests World sdk
                  (Spec.eligible env provider messages)
                  (mkError (js "Unsupported AI provider: " ++ provider)) m)
        as [k Hk].
      exists (firstn k (Spec.eligible env provider messages)).
      split; [exact Hk | apply eligible_prefix_NoDup]. }
  destruct Main as (made & Hm & Hn). exists made. repeat split; auto.
  rewrite <- (length_map vendorOf). now apply Bound.
Qed.

(** X5: when the routed call answers, that answer is the result and it was
    the only request: no fallback is tried on success. *)
Theorem generateChatCompletion_stops_at_first_answer
    (messages : list AIMessage) (model : option jsstring)
    (m m1 : Machine World) (answer : jsstring) :
  let selector := match model with Some s => s | None => js "gpt-4o" end in
  dispatch sdk (fst (parseSelector selector)) (snd (parseSelector selector))
    messages m = (Returned answer, m1) ->
  generateChatCompletion sdk env messages model m = (Returned answer, m1) /\
  exists r,
    requests m1 = requests m ++ [r] /\
    vendorName (vendorOf r) = fst (parseSelector selector) /\
    requestModel r = snd (parseSelector selector).
Proof.
  intros selector H. split.
  - unfold generateChatCompletion. fold selector.
    destruct (parseSelector selector) as [p mn]. simpl in H.
    rewrite catch_primary, H. reflexivity.
  - destruct (dispatch_cases (fst (parseSelector selector))
                (snd (parseSelector selector)) messages m)
      as [(r & Hv & Hmod & E)|E]; rewrite E in H; [|discriminate].
    exists r. repeat split; auto.
    pose proof (call_requests World sdk r m) as Hr. rewrite H in Hr. exact Hr.
Qed.

(** X6: a provider name the dispatcher does not know costs no request of its
    own; with no credential configured the call fails at once, naming the
    provider, and nothing was asked. *)
Theorem generateChatCompletion_unknown_provider
    (messages : list AIMessage) (selector : jsstring) (m : Machine World) :
  let provider := fst (parseSelector selector) in
  provider <> js "openai" -> provider <> js "google" ->
  provider <> js "mistral" ->
  generateChatCompletion sdk env messages (Some selector) m
    = Spec.firstSuccess sdk (Spec.eligible env provider messages)
        (mkError (js "Unsupported AI provider: " ++ provider)) m /\
  (configured env OpenAI = false -> configured env Google = false ->
   configured env Mistral = false ->
   generateChatCompletion sdk env messages (Some selector) m
     = (Threw (mkError (js "Failed to generate AI response: "
                        ++ js "Unsupported AI provider: " ++ provider)), m)).
Proof.
  intros provider Ho Hg Hm.
  assert (R : generateChatCompletion sdk env messages (Some selector) m
              = Spec.firstSuccess sdk (Spec.eligible env provider messages)
                  (mkError (js "Unsupported AI provider: " ++ provider)) m).
  { unfold generateChatCompletion. unfold provider in *.
    destruct (parseSelector selector) as [p mn]. cbn [fst snd] in *.
    rewrite catch_primary, (dispatch_unknown World sdk) by assumption.
    apply handler_is_cascade. }
  split; [exact R|]. intros Co Cg Cm. rewrite R.
  unfold Spec.eligible, Spec.candidates. simpl in Co, Cg, Cm.
  cbn [filter fst snd]. rewrite Co, Cg, Cm. reflexivity.
Qed.

(** X7: every fallback the cascade can try names a vendor and a model that
    the listing offers. *)
Theorem fallback_models_are_listed
    (provider : jsstring) (messages : list AIMessage) (r : Request) :
  In r (Spec.eligible env provider messages) ->
  In (selectorOf r) (map id (getAvailableModels env)).
Proof.
  unfold Spec.eligible, Spec.candidates, getAvailableModels.
  cbn [filter fst snd].
  destruct (truthy (MISTRAL_API_KEY env)), (truthy (OPENAI_API_KEY env)),
    (truthy (GOOGLE_API_KEY env));
    cbn [andb];
    destruct (negb (JS.eqb provider (js "mistral"))),
      (negb (JS.eqb provider (js "openai"))),
      (negb (JS.eqb provider (js "google")));
    cbn [map snd In]; intros H;
    repeat match type of H with
      | _ \/ _ => destruct H as [H|H]
      | False => destruct H
      end; subst r; vm_compute; tauto.
Qed.

End Requests.

Lemma generateChatCompletion_stops_at_first_answer_witness :
  AiService.generateChatCompletion Examples.allUp Examples.onlyMistral
    Examples.hello (Some (js "google:gemini-2.0-flash")) Examples.start
  = (AiService.Returned (js "A title"),
     AiService.mkMachine tt
       [AiService.GoogleRequest (js "gemini-2.0-flash")
          (AiService.googleContents Examples.hello)]).
Proof.
  apply (generateChatCompletion_stops_at_first_answer unit Examples.allUp
           Examples.onlyMistral Examples.hello
           (Some (js "google:gemini-2.0-flash")) Examples.start).
  reflexivity.
Defined.

Lemma generateChatCompletion_unknown_provider_witness :
  AiService.generateChatCompletion Examples.allUp
    (AiService.mkEnv None None None)
    Examples.hello (Some (js "anthropic:claude")) Examples.start
  = (AiService.Threw
       (AiService.mkError
          (js "Failed to generate AI response: "
           ++ js "Unsupported AI provider: " ++ js "anthropic")),
     Examples.start).
Proof.
  apply (generateChatCompletion_unknown_provider unit Examples.allUp
           (AiService.mkEnv None None None) Examples.hello
           (js "anthropic:claude") Examples.start);
    try (vm_compute; discriminate); reflexivity.
Defined.

Lemma fallback_models_are_listed_witness :
  In (Models.selectorOf
        (AiService.MistralRequest (js "mistral-large-2")
           (AiService.mistralMessages Examples.hello)))
     (map Models.id (Models.getAvailableModels Examples.onlyMistral)).
Proof.
  apply (fallback_models_are_listed Examples.onlyMistral (js "openai")
           Examples.hello).
  vm_compute. left. reflexivity.
Defined.

(** ** What every provider is told *)

Section Instructions.

Import AiService Models.

(** X8: whatever the history, the list sent to OpenAI or Mistral holds a
    system message, each of its system messages ends with the
    instruction, and its other messages are those of the history, in
    order and unchanged. *)
Theorem instruction_always_delivered
    (instruction : jsstring) (messages : list AIMessage) :
  let sent := withInstruction instruction messages in
  hasSystemMessage sent = true /\
  Forall (fun out => role out = System ->
                     exists before, content out = before ++ instruction) sent /\
  filter Spec.notSystem sent = filter Spec.notSystem messages /\
  length sent
    = (if hasSystemMessage messages then 0 else 1) + length messages.
Proof.
  intros sent. unfold sent, withInstruction.
  destruct (hasSystemMessage messages) eqn:H; cbn [negb].
  - repeat split.
    + clear sent. induction messages as [|[r c] l IH]; [discriminate|].
      simpl in *. destruct r; simpl in *; auto.
    + clear. induction messages as [|[r c] l IH]; simpl; constructor; auto.
      destruct r; simpl; intros E; try discriminate.
      exists (c ++ [LF; LF]). now rewrite <- app_assoc.
    + clear. induction messages as [|[r c] l IH]; [reflexivity|].
      destruct r; cbn [map filter role content Role_eqb];
        repeat match goal with
          | |- context [Spec.notSystem (mkAIMessage ?r ?c)] =>
              let v := eval cbv in (Spec.notSystem (mkAIMessage r c)) in
              change (Spec.notSystem (mkAIMessage r c)) with v
          end; cbv iota; now rewrite IH.
    + now rewrite length_map.
  - repeat split.
    + constructor.
      * intros _. exists []. reflexivity.
      * rewrite map_rebuild. clear sent.
        induction messages as [|[r c] l IH]; constructor.
        -- simpl in H. destruct r; simpl in *; try discriminate;
             intros; discriminate.
        -- apply IH. simpl in H. now apply orb_false_elim in H.
    + cbn [filter]. rewrite map_rebuild. reflexivity.
    + simpl. now rewrite length_map.
Qed.

Lemma googleLoop_after_first st l :
  formattedMessages st <> [] ->
  formattedMessages (fold_left googleStep l st)
  = formattedMessages st ++ map plainEntry (filter Spec.notSystem l).
Proof.
  revert st; induction l as [|msg l IH]; intros st H; simpl.
  - now rewrite app_nil_r.
  - assert (S1 : formattedMessages (googleStep st msg)
                 = formattedMessages st
                   ++ map plainEntry (filter Spec.notSystem [msg])).
    { unfold googleStep, plainEntry, Spec.toGemini, Spec.notSystem.
      destruct (formattedMessages st) as [|x xs] eqn:F; [congruence|].
      destruct msg as [[| |] c]; simpl; rewrite ?F; simpl;
        rewrite ?andb_false_r; simpl; rewrite ?F, ?app_nil_r; reflexivity. }
    rewrite IH.
    + rewrite S1. simpl. destruct (Spec.notSystem msg); simpl;
        now rewrite <- app_assoc.
    + rewrite S1. destruct (formattedMessages st); [congruence|discriminate].
Qed.

Lemma googleLoop_systems systems p :
  Forall (fun msg => role msg = System) systems ->
  fold_left googleStep systems (mkLoop p [])
  = mkLoop (p ++ concat (map (fun msg => content msg ++ [LF; LF]) systems)) [].
Proof.
  intros H; revert p. induction H as [|[r c] l Hr _ IH]; intros p; simpl.
  - now rewrite app_nil_r.
  - simpl in Hr. subst r. unfold googleStep at 2. simpl.
    rewrite IH, <- !app_assoc. reflexivity.
Qed.

(** X9: the request to Gemini for a history with a message that is not a
    system message: its entries are these messages in order, the text of
    each unchanged, except that when the first of them is the user's its
    text comes after the instruction and the content of the system
    messages before it.  System messages further on leave no trace. *)
Theorem googleContents_shape
    (systems : list AIMessage) (first : AIMessage) (rest : list AIMessage) :
  Forall (fun msg => role msg = System) systems ->
  role first <> System ->
  googleContents (systems ++ first :: rest)
  = mkGemini (Spec.toGemini first)
      [match role first with
       | User =>
           quickQuestionsInstructions ++ [LF; LF]
             ++ concat (map (fun msg => content msg ++ [LF; LF]) systems)
             ++ content first
       | _ => content first
       end]
    :: map plainEntry (filter Spec.notSystem rest).
Proof.
  intros Hsys Hfirst. unfold googleContents.
  rewrite fold_left_app, googleLoop_systems by assumption.
  cbn [fold_left].
  set (p := (quickQuestionsInstructions ++ [LF; LF])
            ++ concat (map (fun msg => content msg ++ [LF; LF]) systems)).
  assert (Hp : JS.eqb p [] = false) by (apply eqb_neq; discriminate).
  assert (S1 : formattedMessages (googleStep (mkLoop p []) first)
               = [mkGemini (Spec.toGemini first)
                    [match role first with
                     | User => p ++ content first
                     | _ => content first
                     end]]).
  { unfold googleStep, Spec.toGemini. destruct (role first); try congruence;
      cbn [systemPrompt formattedMessages length Nat.eqb andb negb];
      rewrite ?Hp; reflexivity. }
  rewrite googleLoop_after_first by (rewrite S1; discriminate).
  rewrite S1. cbn [app length Nat.eqb andb].
  unfold p. destruct (role first); rewrite <- ?app_assoc; reflexivity.
Qed.

(** X10: the request to Gemini is never empty: a history without any message
    to pass on (empty, or system messages only) is sent as one user
    entry made of the instruction and the system messages' content. *)
Theorem googleContents_never_empty (messages : list AIMessage) :
  googleContents messages <> [] /\
  (Forall (fun msg => role msg = System) messages ->
   googleContents messages
   = [mkGemini GUser
        [quickQuestionsInstructions ++ [LF; LF]
           ++ concat (map (fun msg => content msg ++ [LF; LF]) messages)]]).
Proof.
  split.
  - intros E. apply (f_equal (map grole)) in E.
    rewrite googleContents_roles in E.
    destruct (filter Spec.notSystem messages); discriminate.
  - intros H. unfold googleContents. rewrite googleLoop_systems by assumption.
    cbn [formattedMessages systemPrompt length Nat.eqb andb].
    replace (JS.eqb _ []) with false by (symmetry; apply eqb_neq; discriminate).
    cbn [negb app]. now rewrite <- app_assoc.
Qed.

End Instructions.

Lemma googleContents_shape_witness :
  AiService.googleContents
    ([AiService.mkAIMessage AiService.System (js "Be brief.")]
       ++ AiService.mkAIMessage AiService.User (js "Hello")
       :: [AiService.mkAIMessage AiService.Assistant (js "Hi");
           AiService.mkAIMessage AiService.System (js "Be kind.");
           AiService.mkAIMessage AiService.User (js "Bye")])
  = [AiService.mkGemini AiService.GUser
       [AiService.quickQuestionsInstructions ++ [LF; LF]
          ++ (js "Be brief." ++ [LF; LF]) ++ js "Hello"];
     AiService.mkGemini AiService.GModel [js "Hi"];
     AiService.mkGemini AiService.GUser [js "Bye"]].
Proof.
  etransitivity.
  - apply (googleContents_shape
             [AiService.mkAIMessage AiService.System (js "Be brief.")]
             (AiService.mkAIMessage AiService.User (js "Hello"))).
    + repeat constructor.
    + discriminate.
  - reflexivity.
Defined.

Lemma googleContents_never_empty_witness :
  AiService.googleContents []
  = [AiService.mkGemini AiService.GUser
       [AiService.quickQuestionsInstructions ++ [LF; LF] ++ []]].
Proof.
  apply (googleContents_never_empty []). constructor.
Defined.

(** ** The request that asks for a title *)

Section TitleRequest.

Import AiService Titles.

Variable World : Type.
Variable sdk : Request -> World -> Completion jsstring * World.
Variable env : Env.

Lemma titlePrimary_request firstUserMessage selector m :
  titlePrimary sdk firstUserMessage selector m
  = call sdk (titleRequest firstUserMessage selector) m.
Proof.
  unfold titlePrimary, titleRequest.
  destruct (parseSelector selector) as [p mn]. cbn [fst snd].
  destruct (JS.eqb p (js "openai")); [reflexivity|].
  destruct (JS.eqb p (js "google")); [|reflexivity].
  unfold generateGoogleChatCompletion. rewrite rethrow_call.
  reflexivity.
Qed.

(** X11: title generation first sends the title prompt together with the
    quick-questions instruction, and when that request is answered the
    answer is the title as it came: nothing is trimmed or cut out of it,
    and no second request is made. *)
Theorem title_is_first_answer_verbatim
    (firstUserMessage : jsstring) (model : option jsstring)
    (m m1 : Machine World) (answer : jsstring) :
  let selector := match model with Some s => s | None => js "gpt-3.5-turbo" end in
  call sdk (titleRequest firstUserMessage selector) m = (Returned answer, m1) ->
  generateConversationTitle sdk env firstUserMessage model m
    = (Returned answer, m1).
Proof.
  intros selector H.
  unfold generateConversationTitle. fold selector.
  now rewrite catch_primary, titlePrimary_request, H.
Qed.

End TitleRequest.

Lemma title_is_first_answer_verbatim_witness :
  AiService.generateConversationTitle Examples.allUp Examples.onlyMistral
    (js "Hello") None Examples.start
  = (AiService.Returned (js "A title"),
     AiService.mkMachine tt
       [AiService.OpenAIRequest (js "gpt-3.5-turbo")
          [AiService.mkAIMessage AiService.System
             (AiService.titlePromptText ++ [LF; LF]
                ++ AiService.openaiInstruction);
           AiService.mkAIMessage AiService.User (js "Hello")]]).
Proof.
  apply (title_is_first_answer_verbatim unit Examples.allUp
           Examples.onlyMistral (js "Hello") None Examples.start);
    reflexivity.
Defined.

(** ** The dispatcher changes the world through vendor requests only *)

Section Frame.

Import AiService.

Variable World : Type.
Variable sdk : Request -> World -> Completion jsstring * World.
Variable env : Env.

(** A relation between worlds that every vendor call respects. *)
Variable keep : World -> World -> Prop.
Hypothesis keep_refl : forall w, keep w w.
Hypothesis keep_trans : forall a b c, keep a b -> keep b c -> keep a c.
Hypothesis keep_sdk : forall r w, keep w (snd (sdk r w)).

Lemma call_keep r m : keep (world m) (world (snd (call sdk r m))).
Proof.
  unfold call. pose proof (keep_sdk r (world m)) as H.
  destruct (sdk r (world m)); exact H.
Qed.

Lemma firstSuccess_keep attempts original m :
  keep (world m) (world (snd (Spec.firstSuccess sdk attempts original m))).
Proof.
  revert m; induction attempts as [|r rest IH]; intros m; simpl.
  - apply keep_refl.
  - pose proof (call_keep r m) as H.
    destruct (call sdk r m) as [[a|e] m1]; simpl in *; [exact H|].
    eapply keep_trans; [exact H | apply IH].
Qed.

Lemma generateChatCompletion_keep messages model m :
  keep (world m)
       (world (snd (generateChatCompletion sdk env messages model m))).
Proof.
  unfold generateChatCompletion.
  destruct (parseSelector _) as [provider modelName].
  rewrite catch_primary.
  destruct (dispatch_cases World sdk provider modelName messages m)
    as [(r & _ & _ & ->)| ->].
  - pose proof (call_keep r m) as H.
    destruct (call sdk r m) as [[a|e] m1]; cbn [snd] in H; [exact H|].
    rewrite handler_is_cascade.
    eapply keep_trans; [exact H | apply firstSuccess_keep].
  - rewrite handler_is_cascade. apply firstSuccess_keep.
Qed.

Lemma generateConversationTitle_outcome firstUserMessage model m :
  exists title m',
    generateConversationTitle sdk env firstUserMessage model m
      = (Returned title, m') /\
    keep (world m) (world m').
Proof.
  unfold generateConversationTitle.
  rewrite catch_primary, titlePrimary_request.
  match goal with |- context [call sdk ?r m] =>
    pose proof (call_keep r m) as H;
    destruct (call sdk r m) as [[t|e] m1] end; simpl in H.
  - eauto.
  - unfold titleFallback, generateGoogleChatCompletion.
    destruct (truthy (GOOGLE_API_KEY env)).
    + cbn [bind ret catch raise Monad_Task Exc_Task].
      match goal with |- context [call sdk ?q m1] =>
        pose proof (call_keep q m1) as Hq;
        destruct (call sdk q m1) as [[t|e'] m2] end; simpl in Hq;
        do 2 eexists; (split; [reflexivity | eapply keep_trans; eassumption]).
    + cbn. eauto.
Qed.

End Frame.

(** ** The routes *)

Section Routes.

Import AiService Api.

Variable W D : Type.
Variable vendor : Request -> W -> Completion jsstring * W.
Variable storage : Storage D.
Variable env : Env.

Lemma sameData_refl (s : Server W D) : sameData s s.
Proof. split; reflexivity. Qed.

Lemma sameData_trans (a b c : Server W D) :
  sameData a b -> sameData b c -> sameData a c.
Proof. intros [? ?] [? ?]. split; congruence. Qed.

Lemma sameData_sdk r (s : Server W D) :
  sameData s (snd (@Api.sdk W D vendor r s)).
Proof.
  unfold Api.sdk. destruct (vendor r (vendors s)). split; reflexivity.
Qed.



End Routes.

(** ** The message route *)

Section MessageRoute.

Import AiService Api.

Variable W D : Type.
Variable vendor : Request -> W -> Completion jsstring * W.
Variable storage : Storage D.
Variable env : Env.

Lemma title_in_route firstContent (m : Machine (Server W D)) :
  exists newTitle m',
    generateConversationTitle (@Api.sdk W D vendor) env firstContent None m
      = (Returned newTitle, m') /\
    database (world m) = database (world m') /\
    calls (world m) = calls (world m') /\
    exists more,
      requests m'
      = requests m
        ++ Titles.titleRequest firstContent (js "gpt-3.5-turbo") :: more.
Proof.
  destruct (generateConversationTitle_outcome (Server W D)
              (@Api.sdk W D vendor) env (@sameData W D)
              (@sameData_trans W D)
              (sameData_sdk W D vendor) firstContent None m)
    as (t & m' & E & K).
  exists t, m'. split; [exact E|]. split; [apply K|]. split; [apply K|].
  apply (f_equal snd) in E. cbn [snd] in E. rewrite <- E. clear E K.
  unfold generateConversationTitle.
  rewrite catch_primary, titlePrimary_request.
  match goal with |- context [call ?s ?r m] =>
    pose proof (call_requests _ s r m) as H;
    destruct (call s r m) as [[t1|e] m1] end; cbn [snd] in H.
  - exists []. exact H.
  - unfold titleFallback, generateGoogleChatCompletion.
    destruct (truthy (GOOGLE_API_KEY env)).
    + cbn [bind ret catch raise Monad_Task Exc_Task].
      match goal with |- context [call ?s ?q m1] =>
        pose proof (call_requests _ s q m1) as Hq;
        exists [q]; destruct (call s q m1) as [[t2|e'] m2] end;
        cbn [snd] in *; rewrite Hq, H, <- app_assoc; reflexivity.
    + cbn. exists []. exact H.
Qed.

Lemma completion_in_route messages model (m : Machine (Server W D)) :
  let m' := snd (generateChatCompletion (@Api.sdk W D vendor) env
                   messages model m) in
  database (world m) = database (world m') /\
  calls (world m) = calls (world m') /\
  exists made, requests m' = requests m ++ made.
Proof.
  intros m'.
  destruct (generateChatCompletion_keep (Server W D) (@Api.sdk W D vendor) env
              (@sameData W D) (@sameData_refl W D) (@sameData_trans W D)
              (sameData_sdk W D vendor) messages model m) as [Kd Kc].
  split; [exact Kd|]. split; [exact Kc|].
  unfold m', generateChatCompletion.
  destruct (parseSelector _) as [provider modelName].
  rewrite catch_primary.
  destruct (dispatch_cases _ (@Api.sdk W D vendor) provider modelName
              messages m) as [(r & _ & _ & ->)| ->].
  - pose proof (call_requests _ (@Api.sdk W D vendor) r m) as Hr.
    destruct (call _ r m) as [[a|e] m1]; cbn [snd] in Hr.
    + exists [r]. exact Hr.
    + rewrite handler_is_cascade.
      destruct (firstSuccess_requests _ (@Api.sdk W D vendor)
                  (Spec.eligible env provider messages) e m1) as [k Hk].
      eexists. rewrite Hk, Hr, <- app_assoc. reflexivity.
  - rewrite handler_is_cascade.
    destruct (firstSuccess_requests _ (@Api.sdk W D vendor)
                (Spec.eligible env provider messages)
                (mkError (js "Unsupported AI provider: " ++ provider)) m)
      as [k Hk].
    eexists. exact Hk.
Qed.

Ltac tidy :=
  cbn [fst snd negb world requests database calls vendors Api.status
       Api.body Api.content catch bind ret Exc_Task Monad_Task] in *.

Ltac crunch :=
  repeat (tidy;
    match goal with
    | K : _ = database (world ?m') |- context [database (world ?m')] =>
        is_var m'; rewrite <- K
    | K : _ = calls (world ?m') |- context [calls (world ?m')] =>
        is_var m'; rewrite <- K
    | |- context [generateConversationTitle ?s0 ?e0 ?f0 None ?m0] =>
        let t := fresh "newTitle" in
        let m' := fresh "m" in
        let E := fresh "E" in
        let Kd := fresh "Kd" in
        let Kc := fresh "Kc" in
        let Kr := fresh "Kr" in
        destruct (title_in_route f0 m0) as (t & m' & E & Kd & Kc & Kr);
        rewrite E
    | |- context [generateChatCompletion ?s0 ?e0 ?msgs ?model ?m0] =>
        let Kd := fresh "Kd" in
        let Kc := fresh "Kc" in
        let G := fresh "G" in
        let Kr := fresh "Kr" in
        destruct (completion_in_route msgs model m0) as (Kd & Kc & Kr);
        destruct (generateChatCompletion s0 e0 msgs model m0)
          as [[?answer|?err] ?mc] eqn:G
    | |- context [getConversation ?s0 ?c0 ?d0] =>
        destruct (getConversation s0 c0 d0)
          as [[[?conversation|]|?err] ?db] eqn:?
    | |- context [getUserSettings ?s0 ?c0 ?d0] =>
        destruct (getUserSettings s0 c0 d0) as [[?settings|?err] ?db] eqn:?
    | |- context [createMessage ?s0 ?c0 ?d0] =>
        destruct (createMessage s0 c0 d0) as [[?stored|?err] ?db] eqn:?
    | |- context [updateConversation ?s0 ?c0 ?t0 ?d0] =>
        destruct (updateConversation s0 c0 t0 d0)
          as [[?updated|?err] ?db] eqn:?
    | |- context [getMessagesByConversationId ?s0 ?c0 ?d0] =>
        destruct (getMessagesByConversationId s0 c0 d0)
          as [[?allMessages|?err] ?db] eqn:?
    | |- context [if negb (Z.eqb ?a ?b) then _ else _] =>
        destruct (Z.eqb_spec a b)
    | |- context [if JS.eqb ?a ?b then _ else _] =>
        destruct (JS.eqb a b) eqn:?
    end);
  tidy.

Ltac open_route :=
  unfold postMessageRoute, refreshTitle, withOwnConversation, ask,
    internalError, respond, parseInsertMessage.

(** X13: the message route always answers, and with one of five statuses. *)
Theorem postMessageRoute_always_answers
    (sessionUserId conversationId : Z) (body : MessageBody)
    (m : Machine (Server W D)) :
  exists response m',
    postMessageRoute vendor storage env sessionUserId conversationId body m
      = (Returned response, m') /\
    In (status response) [201; 400; 403; 404; 500].
Proof.
  open_route. destruct (bodyContent body) as [c|];
    crunch; do 2 eexists; (split; [reflexivity | simpl; tauto]).
Qed.

(** X14: a body without a string under [content] stores nothing and asks no
    vendor: the route stops after the lookup or after reading the
    settings, and when both of these went well it answers 400. *)
Theorem postMessageRoute_rejects_missing_content
    (sessionUserId conversationId : Z) (body : MessageBody)
    (m : Machine (Server W D)) :
  bodyContent body = None ->
  let out :=
    postMessageRoute vendor storage env sessionUserId conversationId body m in
  requests (snd out) = requests m /\
  vendors (world (snd out)) = vendors (world m) /\
  (calls (world (snd out))
     = calls (world m) ++ [GetConversation conversationId] \/
   calls (world (snd out))
     = (calls (world m) ++ [GetConversation conversationId])
         ++ [GetUserSettings sessionUserId]) /\
  (forall conversation settings d1 d2,
      getConversation storage conversationId (database (world m))
        = (Returned (Some conversation), d1) ->
      userId conversation = sessionUserId ->
      getUserSettings storage sessionUserId d1 = (Returned settings, d2) ->
      fst out = Returned (mkResponse 400 JsonValidationError)).
Proof.
  intros H out. unfold out. open_route. rewrite H.
  crunch; repeat split; auto;
    intros; repeat match goal with
      | A : ?x = _, B : ?x = _ |- _ => rewrite A in B; inversion B; subst; clear B
      end; try congruence; try reflexivity.
Qed.


(** X16: when the dispatcher fails, the route answers 500 with the error's
    message, which is the message of an exhausted cascade; the user's
    message has been stored by then and no storage call follows the
    reading of the history, so no assistant message is stored. *)
Theorem postMessageRoute_failed_completion
    (sessionUserId conversationId : Z) (body : MessageBody)
    (m m4 m6 : Machine (Server W D))
    (conversation : Conversation) (settings : option UserSettings)
    (text : jsstring) (userMessage : Routes.Message)
    (allMessages : list Routes.Message) (d1 d2 d3 d5 : D) (e : JsError) :
  getConversation storage conversationId (database (world m))
    = (Returned (Some conversation), d1) ->
  userId conversation = sessionUserId ->
  getUserSettings storage sessionUserId d1 = (Returned settings, d2) ->
  bodyContent body = Some text ->
  createMessage storage (mkInsert text (js "user") conversationId) d2
    = (Returned userMessage, d3) ->
  refreshTitle vendor storage env conversation text conversationId
    (mkMachine
       (mkServer (vendors (world m)) d3
          (((calls (world m) ++ [GetConversation conversationId])
              ++ [GetUserSettings sessionUserId])
             ++ [CreateMessage (mkInsert text (js "user") conversationId)]))
       (requests m))
    = (Returned tt, m4) ->
  getMessagesByConversationId storage conversationId (database (world m4))
    = (Returned allMessages, d5) ->
  generateChatCompletion (@Api.sdk W D vendor) env
    (Routes.formattedMessages allMessages) (Some (chosenModel settings))
    (mkMachine
       (mkServer (vendors (world m4)) d5
          (calls (world m4) ++ [GetMessagesByConversationId conversationId]))
       (requests m4))
    = (Threw e, m6) ->
  postMessageRoute vendor storage env sessionUserId conversationId body m
    = (Returned (mkResponse 500 (JsonMessage (message e))), m6) /\
  database (world m6) = d5 /\
  calls (world m6)
    = calls (world m4) ++ [GetMessagesByConversationId conversationId] /\
  exists original,
    message e = js "Failed to generate AI response: "
                ++ orElse (message original) (js "Unknown error").
Proof.
  intros H1 H2 H3 H4 H5 H6 H7 H8.
  split; [|split; [|split]].
  - unfold postMessageRoute, withOwnConversation, ask,
      internalError, respond, parseInsertMessage.
    tidy. rewrite H1. tidy. rewrite H2, Z.eqb_refl. tidy.
    rewrite H3. tidy. rewrite H4. tidy. rewrite H5. tidy.
    rewrite H6. tidy. rewrite H7. tidy. rewrite H8. reflexivity.
  - match type of H8 with
    | generateChatCompletion _ _ ?ms ?mo ?mm = _ =>
        destruct (completion_in_route ms mo mm) as (Kd & _ & _)
    end.
    rewrite H8 in Kd. symmetry. exact Kd.
  - match type of H8 with
    | generateChatCompletion _ _ ?ms ?mo ?mm = _ =>
        destruct (completion_in_route ms mo mm) as (_ & Kc & _)
    end.
    rewrite H8 in Kc. symmetry. exact Kc.
  - destruct (generateChatCompletion_error_shape _ _ _ _ _ _ _ _ H8)
      as [original ->].
    exists original. reflexivity.
Qed.

(** X17: the title of a conversation still called "New Conversation" is asked
    for with the default model: whatever model the user's settings name,
    the first vendor request of the route is the title request for
    "gpt-3.5-turbo", which goes to OpenAI. *)
Theorem postMessageRoute_title_uses_default_model
    (sessionUserId conversationId : Z) (body : MessageBody)
    (m : Machine (Server W D))
    (conversation : Conversation) (settings : option UserSettings)
    (text : jsstring) (userMessage : Routes.Message) (d1 d2 d3 : D) :
  getConversation storage conversationId (database (world m))
    = (Returned (Some conversation), d1) ->
  userId conversation = sessionUserId ->
  title conversation = js "New Conversation" ->
  getUserSettings storage sessionUserId d1 = (Returned settings, d2) ->
  bodyContent body = Some text ->
  createMessage storage (mkInsert text (js "user") conversationId) d2
    = (Returned userMessage, d3) ->
  exists more,
    requests
      (snd (postMessageRoute vendor storage env sessionUserId conversationId
              body m))
    = requests m
      ++ OpenAIRequest (js "gpt-3.5-turbo")
           [mkAIMessage System
              (titlePromptText ++ [LF; LF] ++ openaiInstruction);
            mkAIMessage User text]
      :: more.
Proof.
  intros H1 H2 H3 H4 H5 H6.
  change (OpenAIRequest (js "gpt-3.5-turbo")
            [mkAIMessage System
               (titlePromptText ++ [LF; LF] ++ openaiInstruction);
             mkAIMessage User text])
    with (Titles.titleRequest text (js "gpt-3.5-turbo")).
  open_route. tidy. rewrite H1. tidy. rewrite H2, Z.eqb_refl. tidy.
  rewrite H3, H4. tidy. rewrite H5. tidy. rewrite H6. tidy.
  rewrite eqb_refl.
  crunch;
    repeat match goal with
      | K : exists _, _ |- _ => destruct K as [? K]
      end;
    cbn [requests] in *;
    repeat match goal with
      | K : requests ?x = _ |- context [requests ?x] => rewrite K
      end;
    rewrite <- ?app_assoc; cbn [app]; eexists; reflexivity.
Qed.

End MessageRoute.

(** ** The routes on a sample storage *)

Lemma postMessageRoute_rejects_missing_content_witness :
  AiService.requests
    (snd (Api.postMessageRoute Examples.allUp ApiExamples.memory
            Examples.onlyMistral 1 7 (Api.mkBody None None None)
            ApiExamples.booted))
  = [].
Proof.
  apply (postMessageRoute_rejects_missing_content unit ApiExamples.Db
           Examples.allUp ApiExamples.memory Examples.onlyMistral 1 7
           (Api.mkBody None None None) ApiExamples.booted).
  reflexivity.
Defined.


Lemma postMessageRoute_failed_completion_witness :
  exists m6,
    Api.postMessageRoute Examples.allDown ApiExamples.memory
      Examples.onlyMistral 1 7 (ApiExamples.says "How are you?")
      ApiExamples.booted
    = (AiService.Returned
         (Api.mkResponse 500
            (Api.JsonMessage (js "Failed to generate AI response: boom"))),
       m6).
Proof.
  edestruct (postMessageRoute_failed_completion unit ApiExamples.Db
               Examples.allDown ApiExamples.memory Examples.onlyMistral 1 7
               (ApiExamples.says "How are you?") ApiExamples.booted)
    as [R _].
  - reflexivity.
  - reflexivity.
  - reflexivity.
  - reflexivity.
  - reflexivity.
  - reflexivity.
  - reflexivity.
  - vm_compute. reflexivity.
  - eexists. exact R.
Defined.

Lemma postMessageRoute_title_uses_default_model_witness :
  exists more,
    AiService.requests
      (snd (Api.postMessageRoute Examples.allUp ApiExamples.memory
              Examples.onlyMistral 1 8 (ApiExamples.says "How are you?")
              ApiExamples.booted))
    = AiService.requests ApiExamples.booted
      ++ AiService.OpenAIRequest (js "gpt-3.5-turbo")
           [AiService.mkAIMessage AiService.System
              (AiService.titlePromptText ++ [LF; LF]
                 ++ AiService.openaiInstruction);
            AiService.mkAIMessage AiService.User (js "How are you?")]
      :: more.
Proof.
  eapply (postMessageRoute_title_uses_default_model unit ApiExamples.Db
            Examples.allUp ApiExamples.memory Examples.onlyMistral 1 8
            (ApiExamples.says "How are you?") ApiExamples.booted);
    reflexivity.
Defined.

(** ** The typing animation *)

Section TypingAnimation.

Import Typing.

Lemma ticks_while_revealing plain messageId n j shown done :
  1 <= n -> j + n <= S (length plain) ->
  ticks n plain messageId (mkState j shown true true done)
  = mkState (j + n) (firstn (j + n - 1) plain) true true done.
Proof.
  revert j shown; induction n as [|n IH]; intros j shown Hn Hj; [lia|].
  cbn [ticks]. unfold tick. cbn [timer i isTyping completed displayedContent].
  replace (j <=? length plain) with true by (symmetry; apply Nat.leb_le; lia).
  destruct n as [|n].
  - cbn [ticks]. f_equal; [lia | f_equal; lia].
  - rewrite IH by lia. f_equal; [lia | f_equal; lia].
Qed.

Lemma ticks_after_clearing plain messageId n j shown typing done :
  ticks n plain messageId (mkState j shown typing false done)
  = mkState j shown typing false done.
Proof.
  induction n as [|n IH]; [reflexivity|]. cbn [ticks]. unfold tick.
  cbn [timer]. exact IH.
Qed.

(** X18: the animation of a new assistant message: the first firing shows the
    empty string and each further one reveals one more code unit of the
    plain text, so the firing number [n + 1] shows its first [n] code
    units; the firing after the whole text was shown clears the interval,
    ends the typing and reports the message's id, once; nothing changes
    after that, however often the interval would still fire. *)
Theorem typing_reveals_then_reports
    (plain fullContent : jsstring) (messageId : Z) (before : State) :
  let st := start false (initialise false true fullContent before) in
  (forall n, n <= length plain ->
     ticks (S n) plain messageId st
     = mkState (S n) (firstn n plain) true true (completed before)) /\
  (forall extra,
     ticks (length plain + 2 + extra) plain messageId st
     = mkState (S (length plain)) plain false false
               (completed before ++ [messageId])).
Proof.
  intros st.
  assert (S0 : st = mkState 0 [] true true (completed before)).
  { unfold st, start, initialise. reflexivity. }
  rewrite S0. split.
  - intros n Hn. rewrite ticks_while_revealing by lia.
    f_equal. f_equal. lia.
  - intros extra.
    replace (length plain + 2 + extra)
      with (S (length plain) + S extra) by lia.
    assert (Split : forall a b s,
               ticks (a + b) plain messageId s
               = ticks b plain messageId (ticks a plain messageId s)).
    { induction a as [|a IH]; intros b s; [reflexivity|].
      cbn [Nat.add ticks]. apply IH. }
    rewrite Split, ticks_while_revealing by lia.
    cbn [ticks Nat.add]. unfold tick.
    cbn [timer i isTyping completed displayedContent].
    replace (S (length plain) <=? length plain) with false
      by (symmetry; apply Nat.leb_gt; lia).
    rewrite ticks_after_clearing. f_equal.
    replace (S (length plain) - 1) with (length plain) by lia.
    apply firstn_all.
Qed.

End TypingAnimation.

Lemma typing_reveals_then_reports_witness :
  Typing.ticks 3 (js "Hi there!") 4
    (Typing.start false
       (Typing.initialise false true (js "Hi there!")
          (Typing.mkState 0 [] false false [])))
  = Typing.mkState 3 (js "Hi") true true [].
Proof.
  apply (typing_reveals_then_reports (js "Hi there!") (js "Hi there!") 4
           (Typing.mkState 0 [] false false [])).
  simpl. lia.
Defined.

(** ** What the parser and the projection hand on *)

Section ClientText.

Import Regex MessageItem Spec.

Lemma trimStart_idempotent s : trimStart (trimStart s) = trimStart s.
Proof.
  induction s as [|c s IH]; [reflexivity|]. simpl.
  destruct (isWhiteSpace c) eqn:E; [exact IH|]. simpl. now rewrite E.
Qed.

Lemma trimEnd_idempotent s : trimEnd (trimEnd s) = trimEnd s.
Proof.
  unfold trimEnd. now rewrite rev_involutive, trimStart_idempotent.
Qed.

Lemma trimEnd_inked_head c s :
  isWhiteSpace c = false -> trimEnd (c :: s) = c :: trimEnd s.
Proof.
  intros E. unfold trimEnd. cbn [rev].
  destruct (forallb isWhiteSpace (rev s)) eqn:B.
  - rewrite trimStart_app_blank, (trimStart_blank (rev s)) by exact B.
    simpl. now rewrite E.
  - rewrite trimStart_app_inked by exact B.
    rewrite rev_app_distr. reflexivity.
Qed.

Lemma trim_idempotent s : trim (trim s) = trim s.
Proof.
  unfold trim.
  destruct (trimStart s) as [|c x] eqn:T; [reflexivity|].
  assert (E : isWhiteSpace c = false).
  { clear -T. induction s as [|a s IH]; [discriminate|].
    simpl in T. destruct (isWhiteSpace a) eqn:A; [auto|].
    inversion T; subst. exact A. }
  rewrite trimEnd_inked_head by exact E.
  simpl. rewrite E. rewrite trimEnd_inked_head by exact E.
  now rewrite trimEnd_idempotent.
Qed.

Lemma in_trimStart x s : In x (trimStart s) -> In x s.
Proof.
  induction s as [|c s IH]; [auto|]. simpl.
  destruct (isWhiteSpace c); [right; auto | auto].
Qed.

Lemma in_trim x s : In x (trim s) -> In x s.
Proof.
  unfold trim, trimEnd. intros H. apply in_rev, in_trimStart in H.
  apply in_rev in H. now apply in_trimStart.
Qed.

Lemma split_lines_have_no_sep sep s :
  Forall (fun line => ~ In sep line) (split sep s).
Proof.
  induction s as [|c s IH]; cbn [split]; [repeat constructor; auto|].
  destruct (N.eqb_spec c sep) as [->|Hne].
  - constructor; [auto | exact IH].
  - destruct (split sep s) as [|h t]; [repeat constructor|].
    + simpl. intros [E|[]]. congruence.
    + inversion IH; subst. constructor; [|assumption].
      simpl. intros [E|I]; [congruence | contradiction].
Qed.

(** X19: every quick question the parser extracts is a label one can show on
    a button: not empty, without white space at either end, and without
    a line break inside. *)
Theorem quickQuestions_are_clean_lines (content : jsstring) :
  Forall (fun question =>
            question <> [] /\ trim question = question /\
            ~ In LF question)
         (quickQuestions (parseAssistant content)).
Proof.
  unfold parseAssistant.
  destruct (search quickQuestionsRe content) as [[[before group] after]|];
    [|constructor].
  destruct group as [|g group]; [constructor|].
  cbn [quickQuestions]. unfold questionLines.
  apply Forall_forall. intros q Hq.
  apply filter_In in Hq. destruct Hq as [Hq Hlen].
  apply in_map_iff in Hq. destruct Hq as (line & <- & Hline).
  repeat split.
  - intros E. rewrite E in Hlen. discriminate.
  - apply trim_idempotent.
  - intros I. apply in_trim in I.
    pose proof (split_lines_have_no_sep LF (trim (g :: group))) as F.
    rewrite Forall_forall in F. exact (F line Hline I).
Qed.

End ClientText.

(** ** The plain-text projection, for every text *)

Section Projection.

Import Regex MessageItem Patterns.

Lemma replaceAllFrom_conservative m :
  conservative m ->
  forall n s x, In x (replaceAllFrom n m s) -> In x s.
Proof.
  intros Hm. induction n as [|n IH]; intros s x; [auto|].
  destruct s as [|c s]; [auto|]. cbn [replaceAllFrom].
  destruct (m (c :: s)) as [[repl rest]|] eqn:E.
  - intros I. apply in_app_or in I. destruct I as [I|I].
    + eapply Hm; [exact E | left; exact I].
    + eapply Hm; [exact E | right; apply IH; exact I].
  - intros [->|I]; [left; reflexivity | right; apply IH; exact I].
Qed.

Lemma replaceAllFrom_shrinks m :
  shrinking m ->
  forall n s, length (replaceAllFrom n m s) <= length s.
Proof.
  intros Hm. induction n as [|n IH]; intros s; [reflexivity|].
  destruct s as [|c s]; [reflexivity|]. cbn [replaceAllFrom].
  destruct (m (c :: s)) as [[repl rest]|] eqn:E.
  - apply Hm in E. rewrite length_app. pose proof (IH rest). lia.
  - simpl. pose proof (IH s). lia.
Qed.

Lemma replaceAllFrom_untouched c m :
  startsWith c m ->
  forall n s, ~ In c s -> replaceAllFrom n m s = s.
Proof.
  intros [Hnil Hm]. induction n as [|n IH]; intros s H; [reflexivity|].
  destruct s as [|c' s]; [reflexivity|]. cbn [replaceAllFrom].
  rewrite Hm by (intros ->; apply H; left; reflexivity).
  f_equal. apply IH. intros I. apply H. right. exact I.
Qed.

Lemma runNot_app x s : fst (runNot x s) ++ snd (runNot x s) = s.
Proof.
  induction s as [|c s IH]; [reflexivity|]. simpl.
  destruct (N.eqb c x); [reflexivity|].
  destruct (runNot x s); simpl in *. now rewrite IH.
Qed.

Lemma hashesThenSpace_suffix n s rest x :
  hashesThenSpace n s = Some rest -> In x rest -> In x s.
Proof.
  assert (Sp : forall s rest,
             match s with
             | c :: s' => if isWhiteSpace c then Some s' else None
             | [] => None
             end = Some rest -> In x rest -> In x s).
  { intros [|c s'] r; [discriminate|].
    destruct (isWhiteSpace c); [|discriminate].
    intros [= <-] I. right. exact I. }
  revert s rest; induction n as [|n IH]; intros s rest; cbn [hashesThenSpace].
  - apply Sp.
  - destruct s as [|c s']; [discriminate|].
    destruct (N.eqb c hash).
    + destruct (hashesThenSpace n s') as [r|] eqn:E.
      * intros [= <-] I. right. eapply IH; eauto.
      * apply (Sp (c :: s')).
    + apply (Sp (c :: s')).
Qed.

Lemma literal_facts p :
  conservative (literal p) /\ shrinking (literal p).
Proof.
  split; intros s repl rest; unfold literal;
    destruct (stripPrefix p s) as [r|] eqn:E; try discriminate.
  - intros x [= <- <-] [[]|I]. apply stripPrefix_Some in E. subst.
    apply in_or_app. now right.
  - intros [= <- <-]. apply stripPrefix_length in E. simpl. lia.
Qed.

Lemma link_facts : conservative link /\ shrinking link.
Proof.
  assert (Shape : forall s repl rest,
             link s = Some (repl, rest) ->
             exists url,
               s = lbracket :: repl ++ rbracket :: lparen :: url
                     ++ rparen :: rest).
  { intros s repl rest. unfold link.
    destruct s as [|c s1]; [discriminate|].
    destruct (N.eqb_spec c lbracket) as [->|]; [|discriminate].
    pose proof (runNot_app rbracket s1) as A1.
    destruct (runNot rbracket s1) as [[|t text] [|c1 [|c2 s2]]];
      try discriminate.
    destruct (N.eqb_spec c1 rbracket) as [->|]; [|discriminate].
    destruct (N.eqb_spec c2 lparen) as [->|]; [|discriminate].
    cbn [andb].
    pose proof (runNot_app rparen s2) as A2.
    destruct (runNot rparen s2) as [[|u url] [|c3 s3]]; try discriminate.
    destruct (N.eqb_spec c3 rparen) as [->|]; [|discriminate].
    intros [= <- <-]. exists (u :: url). cbn [fst snd] in A1, A2.
    rewrite <- A1, <- A2. reflexivity. }
  split; intros s repl rest.
  - intros x E I. destruct (Shape _ _ _ E) as [url ->].
    right. apply in_or_app. destruct I as [I|I]; [left; exact I|].
    right. right. right. apply in_or_app. right. right. exact I.
  - intros E. destruct (Shape _ _ _ E) as [url ->].
    simpl. rewrite !length_app. simpl. rewrite !length_app. simpl. lia.
Qed.

Lemma heading_facts : conservative heading /\ shrinking heading.
Proof.
  split; intros s repl rest; unfold heading;
    destruct s as [|c s']; try discriminate;
    destruct (N.eqb c hash); try discriminate;
    destruct (hashesThenSpace 5 s') as [r|] eqn:E; try discriminate.
  - intros x [= <- <-] [[]|I]. right. eapply hashesThenSpace_suffix; eauto.
  - intros [= <- <-]. apply hashesThenSpace_length in E. simpl. lia.
Qed.

Lemma literal_startsWith c p : startsWith c (literal (c :: p)).
Proof.
  split; [reflexivity|]. intros c' s H. unfold literal.
  rewrite stripPrefix_head_mismatch by congruence. reflexivity.
Qed.

Lemma fence_startsWith : startsWith backtick fence.
Proof. split; [reflexivity | apply fence_needs_backtick]. Qed.

Lemma link_startsWith : startsWith lbracket link.
Proof.
  split; [reflexivity|]. intros c' s H. unfold link.
  destruct (N.eqb_spec c' lbracket); [contradiction | reflexivity].
Qed.

Lemma heading_startsWith : startsWith hash heading.
Proof.
  split; [reflexivity|]. intros c' s H. unfold heading.
  destruct (N.eqb_spec c' hash); [contradiction | reflexivity].
Qed.

(** X20: what is typed out never shows an asterisk or a backtick, whatever
    the display text, and it is never longer than the display text. *)
Theorem plainTextContent_has_no_markers (fullContent : jsstring) :
  ~ In star (plainTextContent fullContent) /\
  ~ In backtick (plainTextContent fullContent) /\
  length (plainTextContent fullContent) <= length fullContent.
Proof.
  rewrite plainText_without_fence_step. unfold replaceAll.
  set (a := replaceAllFrom _ (literal [star; star]) fullContent).
  set (b := replaceAllFrom _ (literal [star]) a).
  set (c := replaceAllFrom _ (literal [backtick]) b).
  set (d := replaceAllFrom _ link c).
  assert (Hb : ~ In star b)
    by (apply replaceAll_literal_char_gone; reflexivity).
  assert (Hc : ~ In backtick c)
    by (apply replaceAll_literal_char_gone; reflexivity).
  assert (Hc' : ~ In star c).
  { intros I. apply Hb.
    eapply replaceAllFrom_conservative; [apply literal_facts | exact I]. }
  repeat split.
  - intros I. apply Hc'.
    eapply replaceAllFrom_conservative; [apply link_facts|].
    eapply replaceAllFrom_conservative; [apply heading_facts | exact I].
  - intros I. apply Hc.
    eapply replaceAllFrom_conservative; [apply link_facts|].
    eapply replaceAllFrom_conservative; [apply heading_facts | exact I].
  - pose proof (replaceAllFrom_shrinks heading (proj2 heading_facts) (length d) d).
    pose proof (replaceAllFrom_shrinks link (proj2 link_facts) (length c) c).
    pose proof (replaceAllFrom_shrinks _ (proj2 (literal_facts [backtick]))
                  (length b) b).
    pose proof (replaceAllFrom_shrinks _ (proj2 (literal_facts [star]))
                  (length a) a).
    pose proof (replaceAllFrom_shrinks _ (proj2 (literal_facts [star; star]))
                  (length fullContent) fullContent).
    fold a in H3. fold b in H2. fold c in H1. fold d in H0. lia.
Qed.

(** X21: a display text without asterisk, backtick, opening bracket and hash
    is typed out as it is. *)
Theorem plainTextContent_of_plain_text (fullContent : jsstring) :
  ~ In star fullContent -> ~ In backtick fullContent ->
  ~ In lbracket fullContent -> ~ In hash fullContent ->
  plainTextContent fullContent = fullContent.
Proof.
  intros Hs Hb Hl Hh. unfold plainTextContent, replaceAll.
  rewrite (replaceAllFrom_untouched _ _ (literal_startsWith star [star]))
    by exact Hs.
  rewrite (replaceAllFrom_untouched _ _ (literal_startsWith star [])) by exact Hs.
  rewrite (replaceAllFrom_untouched _ _ (literal_startsWith backtick []))
    by exact Hb.
  rewrite (replaceAllFrom_untouched _ _ fence_startsWith) by exact Hb.
  rewrite (replaceAllFrom_untouched _ _ link_startsWith) by exact Hl.
  rewrite (replaceAllFrom_untouched _ _ heading_startsWith) by exact Hh.
  reflexivity.
Qed.

End Projection.

Lemma plainTextContent_of_plain_text_witness :
  MessageItem.plainTextContent (js "Hi there!") = js "Hi there!".
Proof.
  apply (plainTextContent_of_plain_text (js "Hi there!"));
    vm_compute; intuition discriminate.
Defined.

(** ** From a finished animation back to the list *)

Section AnimationLifecycle.

Import ChatContent.

Lemma ticks_add plain messageId a b s :
  Typing.ticks (a + b) plain messageId s
  = Typing.ticks b plain messageId (Typing.ticks a plain messageId s).
Proof.
  revert s; induction a as [|a IH]; intros s; [reflexivity|].
  cbn [Nat.add Typing.ticks]. apply IH.
Qed.

Lemma ticks_report plain messageId done :
  Typing.completed
    (Typing.ticks (length plain + 2) plain messageId
       (Typing.mkState 0 [] true true done))
  = done ++ [messageId].
Proof.
  replace (length plain + 2) with (S (length plain) + 1) by lia.
  rewrite ticks_add, ticks_while_revealing by lia.
  cbn [Typing.ticks Nat.add]. unfold Typing.tick.
  cbn [Typing.timer Typing.i Typing.completed].
  replace (S (length plain) <=? length plain) with false
    by (symmetry; apply Nat.leb_gt; lia).
  reflexivity.
Qed.

(** X22: when the animation of the animating message has run to its end and
    its report reaches [handleTypingComplete], no message is marked new
    any more; a report from any other message leaves the state as it
    is. *)
Theorem finished_animation_clears_the_mark
    (st : State) (plain fullContent : jsstring) (messageId : Z)
    (before : Typing.State) :
  Typing.completed before = [] ->
  let finished :=
    Typing.ticks (length plain + 2) plain messageId
      (Typing.start false (Typing.initialise false true fullContent before)) in
  let st' :=
    fold_left (fun s reported => handleTypingComplete reported s)
              (Typing.completed finished) st in
  (animatedMessageId st = Some messageId ->
   animatedMessageId st' = None /\
   forall message, isNew st' message = false) /\
  (animatedMessageId st <> Some messageId -> st' = st).
Proof.
  intros Hdone finished st'.
  assert (R : Typing.completed finished = [messageId]).
  { unfold finished, Typing.start, Typing.initialise.
    cbn [Typing.isTyping andb negb Typing.displayedContent
         Typing.completed].
    rewrite ticks_report, Hdone. reflexivity. }
  unfold st'. rewrite R. cbn [fold_left]. unfold handleTypingComplete.
  split.
  - intros A. rewrite A. cbn [sameId]. rewrite Z.eqb_refl.
    cbn [animatedMessageId]. split; [reflexivity|].
    intros message. unfold isNew. cbn [animatedMessageId sameId].
    apply andb_false_r.
  - intros A. destruct (animatedMessageId st) as [x|]; [|reflexivity].
    cbn [sameId]. destruct (Z.eqb_spec messageId x); [|reflexivity].
    subst. congruence.
Qed.

(** X23: sending a message from a view that shows the cached conversation:
    the optimistic entry put in front of the server's answer never
    animates, and when the confirmed list (as long as the cached one
    plus the user's and the assistant's message) replaces it, the
    assistant's message becomes the animated one.  Without a cached
    conversation nothing is added, the view stays empty, and the reply,
    arriving in the first list the view sees, does not animate. *)
Theorem reply_animates_after_optimistic_entry
    (conversationId : Z) (st : State) (cached : option MessageInput.Data)
    (content : jsstring) (confirmedHistory : list Message)
    (userMessage aiMessage : Message) :
  conversationIdRef st = Some conversationId ->
  prevMessagesRef st = MessageInput.messagesOf cached ->
  length confirmedHistory = length (MessageInput.messagesOf cached) ->
  isAssistant aiMessage = true ->
  let confirmed := confirmedHistory ++ [userMessage; aiMessage] in
  let st1 :=
    render conversationId
      (MessageInput.messagesOf (MessageInput.addOptimistic content cached))
      true st in
  let st2 := render conversationId confirmed true st1 in
  animatedMessageId st1 = animatedMessageId st /\
  prevMessagesRef st2 = confirmed /\
  (cached <> None -> animatedMessageId st2 = Some (id aiMessage)) /\
  (cached = None -> animatedMessageId st2 = animatedMessageId st).
Proof.
  intros Hconv Hprev Hlen Hai confirmed st1 st2.
  assert (Same : forall messages s,
             conversationIdRef s = Some conversationId ->
             render conversationId messages true s = trackMessages messages s).
  { intros messages s Hs. unfold render, resetOnSwitch. rewrite Hs.
    cbn [sameId]. rewrite Z.eqb_refl. reflexivity. }
  destruct cached as [data|].
  - change (MessageInput.messagesOf (Some data))
      with (MessageInput.orEmpty (MessageInput.messages data)) in *.
    set (history := MessageInput.orEmpty (MessageInput.messages data)) in *.
    set (opt := MessageInput.optimisticUserMessage content).
    change (MessageInput.messagesOf
              (MessageInput.addOptimistic content (Some data)))
      with (history ++ [opt]) in *.
    assert (Hopt : isAssistant opt = false) by reflexivity.
    clearbody history opt.
    assert (E1 : st1 = mkState (animatedMessageId st) (history ++ [opt])
                         (conversationIdRef st)).
    { unfold st1. rewrite Same by exact Hconv. unfold trackMessages.
      rewrite Hprev, length_app. cbn [length].
      destruct (Nat.eq_dec (length history) 0) as [Hz|NZ].
      - apply length_zero_iff_nil in Hz. rewrite Hz. reflexivity.
      - replace (length history =? 0) with false
          by (symmetry; apply Nat.eqb_neq; exact NZ).
        cbn [andb].
        replace (length history <? length history + 1) with true
          by (symmetry; apply Nat.ltb_lt; lia).
        rewrite (skipn_same_length history [opt] _ eq_refl).
        cbn [filter]. rewrite Hopt. reflexivity. }
    assert (E2 : st2 = mkState (Some (id aiMessage)) confirmed
                         (conversationIdRef st)).
    { unfold st2. rewrite Same by (rewrite E1; exact Hconv).
      rewrite E1. unfold trackMessages.
      cbn [prevMessagesRef animatedMessageId conversationIdRef].
      unfold confirmed. rewrite !length_app. cbn [length].
      replace (length history + 1 =? 0) with false
        by (symmetry; apply Nat.eqb_neq; lia).
      cbn [andb].
      replace (length history + 1 <? length confirmedHistory + 2) with true
        by (symmetry; apply Nat.ltb_lt; lia).
      change (confirmedHistory ++ [userMessage; aiMessage])
        with (confirmedHistory ++ [userMessage] ++ [aiMessage]).
      rewrite app_assoc.
      rewrite (skipn_same_length (confirmedHistory ++ [userMessage])
                 [aiMessage] (length history + 1))
        by (rewrite length_app; cbn [length]; lia).
      cbn [filter]. rewrite Hai. cbn [length Nat.ltb Nat.leb Nat.sub nth_error].
      rewrite <- app_assoc. reflexivity. }
    rewrite E1, E2. repeat split; congruence.
  - cbn [MessageInput.addOptimistic MessageInput.messagesOf] in *.
    destruct confirmedHistory; [|discriminate].
    assert (E1 : st1 = st).
    { unfold st1. rewrite Same by exact Hconv. unfold trackMessages.
      rewrite Hprev. reflexivity. }
    assert (E2 : st2 = mkState (animatedMessageId st) confirmed
                         (conversationIdRef st)).
    { unfold st2. rewrite E1, Same by exact Hconv. unfold trackMessages.
      rewrite Hprev. reflexivity. }
    rewrite E1, E2. repeat split; congruence.
Qed.

Lemma step_keeps_empty_unmarked st e :
  (prevMessagesRef st = [] -> animatedMessageId st = None) ->
  prevMessagesRef (Runs.step st e) = [] ->
  animatedMessageId (Runs.step st e) = None.
Proof.
  intros Inv. destruct e as [cid messages changed|messageId];
    cbn [Runs.step].
  - unfold render.
    assert (R : prevMessagesRef (resetOnSwitch cid st) = [] ->
                animatedMessageId (resetOnSwitch cid st) = None).
    { unfold resetOnSwitch. destruct (negb _); [reflexivity | exact Inv]. }
    destruct changed; [|exact R].
    unfold trackMessages.
    destruct (prevMessagesRef (resetOnSwitch cid st)) as [|p prev] eqn:P.
    + destruct messages as [|x messages].
      * cbn. rewrite P. exact R.
      * cbn. discriminate.
    + cbn [length Nat.eqb andb].
      destruct (S (length prev) <? length messages) eqn:L.
      * cbn [prevMessagesRef]. intros ->. discriminate.
      * rewrite P. discriminate.
  - unfold handleTypingComplete.
    destruct (sameId messageId (animatedMessageId st)); [reflexivity|].
    exact Inv.
Qed.

Lemma step_marks_rendered_assistant st e x :
  animatedMessageId (Runs.step st e) = Some x ->
  animatedMessageId st = Some x \/
  exists cid messages changed message,
    e = Runs.Render cid messages changed /\
    In message messages /\ isAssistant message = true /\ id message = x.
Proof.
  destruct e as [cid messages changed|messageId]; cbn [Runs.step].
  - unfold render.
    assert (R : forall y, animatedMessageId (resetOnSwitch cid st) = Some y ->
                          animatedMessageId st = Some y).
    { intros y. unfold resetOnSwitch.
      destruct (negb _); [discriminate | auto]. }
    destruct changed; [|intros H; left; now apply R].
    unfold trackMessages.
    destruct ((length (prevMessagesRef (resetOnSwitch cid st)) =? 0)
              && (0 <? length messages));
      [intros H; left; now apply R|].
    destruct (length (prevMessagesRef (resetOnSwitch cid st))
              <? length messages); [|intros H; left; now apply R].
    cbn [animatedMessageId].
    set (fresh := filter isAssistant (skipn _ messages)).
    destruct (0 <? length fresh); [|intros H; left; now apply R].
    destruct (nth_error fresh (length fresh - 1)) as [latest|] eqn:N;
      [|intros H; left; now apply R].
    intros [= <-]. right. exists cid, messages, true, latest.
    apply nth_error_In in N. apply filter_In in N. destruct N as [N A].
    repeat split; auto.
    rewrite <- (firstn_skipn
                  (length (prevMessagesRef (resetOnSwitch cid st))) messages).
    apply in_or_app. now right.
  - unfold handleTypingComplete.
    destruct (sameId messageId (animatedMessageId st));
      [discriminate | auto].
Qed.

(** X24: whatever a mounted view goes through (renders with any conversation
    and list, completion reports with any id), nothing is animated while
    no list has been recorded, and an animated id is always the id of an
    assistant message of a list the view was rendered with. *)
Theorem only_rendered_assistant_messages_animate (events : list Runs.Event) :
  let st := Runs.run events in
  (prevMessagesRef st = [] -> animatedMessageId st = None) /\
  (forall x,
      animatedMessageId st = Some x ->
      exists cid messages changed message,
        In (Runs.Render cid messages changed) events /\
        In message messages /\ isAssistant message = true /\
        id message = x).
Proof.
  unfold Runs.run.
  induction events as [|e events IH] using rev_ind.
  - cbn. split; [reflexivity | discriminate].
  - rewrite fold_left_app. cbn [fold_left].
    destruct IH as [I1 I2]. split.
    + now apply step_keeps_empty_unmarked.
    + intros x H. apply step_marks_rendered_assistant in H.
      destruct H as [H|(cid & ms & ch & msg & -> & Hin & Ha & Hid)].
      * destruct (I2 x H) as (cid & ms & ch & msg & Hin & Rest).
        exists cid, ms, ch, msg. split; [|exact Rest].
        apply in_or_app. now left.
      * exists cid, ms, ch, msg. repeat split; auto.
        apply in_or_app. right. left. reflexivity.
Qed.

End AnimationLifecycle.

Lemma only_rendered_assistant_messages_animate_witness :
  exists cid messages changed message,
    In (Runs.Render cid messages changed)
       [Runs.Render 7 (firstn 1 Examples.shown) true;
        Runs.Render 7 Examples.shown true] /\
    In message messages /\ ChatContent.isAssistant message = true /\
    ChatContent.id message = 2%Z.
Proof.
  apply (proj2 (only_rendered_assistant_messages_animate
                  [Runs.Render 7 (firstn 1 Examples.shown) true;
                   Runs.Render 7 Examples.shown true])).
  reflexivity.
Defined.

Lemma finished_animation_clears_the_mark_witness :
  ChatContent.animatedMessageId
    (fold_left (fun s reported => ChatContent.handleTypingComplete reported s)
       (Typing.completed
          (Typing.ticks (length (js "Hi") + 2) (js "Hi") 2
             (Typing.start false
                (Typing.initialise false true (js "Hi")
                   (Typing.mkState 0 [] false false [])))))
       Examples.watching)
  = None.
Proof.
  apply (finished_animation_clears_the_mark Examples.watching (js "Hi")
           (js "Hi") 2 (Typing.mkState 0 [] false false []) eq_refl).
  reflexivity.
Defined.

Lemma reply_animates_after_optimistic_entry_witness :
  ChatContent.animatedMessageId
    (ChatContent.render 7
       (Examples.shown
          ++ [ChatContent.mkMessage 3 (js "user") (js "How are you?");
              Examples.arriving])
       true
       (ChatContent.render 7
          (MessageInput.messagesOf
             (MessageInput.addOptimistic (js "How are you?")
                (Some (MessageInput.mkData (Some Examples.shown)))))
          true Examples.watching))
  = Some 4%Z.
Proof.
  apply (reply_animates_after_optimistic_entry 7 Examples.watching
           (Some (MessageInput.mkData (Some Examples.shown)))
           (js "How are you?") Examples.shown
           (ChatContent.mkMessage 3 (js "user") (js "How are you?"))
           Examples.arriving eq_refl eq_refl eq_refl eq_refl).
  discriminate.
Defined.

(** ** What is sent and what an older title looks like *)

Section Submitting.

Import Spec.

Lemma trim_nil_iff_blank s : trim s = [] <-> blank s.
Proof.
  split.
  - intros H. destruct (trim_cut s) as (l & r & Hl & Hr & E).
    rewrite H in E. cbn [app] in E. rewrite E. unfold blank in *.
    rewrite forallb_app, Hl, Hr. reflexivity.
  - apply trim_blank.
Qed.

(** X25: [handleSubmit] sends nothing exactly for an input of white space
    only; for any other input the content sent is the input without the
    white space around it: it is not empty and trimming it again changes
    nothing. *)
Theorem messageContent_is_trimmed_input (message : jsstring) :
  match MessageInput.messageContent message with
  | None => blank message
  | Some content =>
      ~ blank message /\ content <> [] /\ trim content = content /\
      exists left right,
        blank left /\ blank right /\ message = left ++ content ++ right
  end.
Proof.
  unfold MessageInput.messageContent.
  destruct (trim message) as [|c t] eqn:E.
  - apply trim_nil_iff_blank. exact E.
  - rewrite <- E. repeat split.
    + rewrite <- trim_nil_iff_blank, E. discriminate.
    + rewrite E. discriminate.
    + apply trim_idempotent.
    + apply trim_cut.
Qed.

End Submitting.

Section OlderTitles.

Import AiService OpenAiOnly.

Variable World : Type.
Variable create :
  jsstring -> list AIMessage -> World -> Completion (option jsstring) * World.

Lemma replaceAll_quote_gone n s :
  length s <= n ->
  ~ In 34%N (Regex.replaceAllFrom n quote s) /\
  ~ In 39%N (Regex.replaceAllFrom n quote s).
Proof.
  revert s; induction n as [|n IH]; intros s Hn.
  - destruct s; [simpl; tauto | simpl in Hn; lia].
  - destruct s as [|c s]; [simpl; tauto|].
    cbn [Regex.replaceAllFrom].
    change (quote (c :: s))
      with (if N.eqb c 34 || N.eqb c 39 then Some (@nil jschar, s) else None).
    simpl in Hn.
    destruct (N.eqb_spec c 34) as [E1|N1]; cbn [orb].
    + cbn [app]. apply IH. lia.
    + destruct (N.eqb_spec c 39) as [E2|N2].
      * cbn [app]. apply IH. lia.
      * destruct (IH s ltac:(lia)) as [A B].
        split; intros [E|I]; auto; congruence.
Qed.

(** X26: the older title function never throws; its title holds no double or
    single quote and no white space at its ends: it is "New Conversation"
    when the call fails, and otherwise the answer's content ("New
    Conversation" for a null or empty one) with every quote removed and
    then trimmed. *)
Theorem older_title_is_clean
    (firstUserMessage : jsstring) (model : option jsstring)
    (m : Machine World) :
  exists title m',
    generateConversationTitle create firstUserMessage model m
      = (Returned title, m') /\
    ~ In 34%N title /\ ~ In 39%N title /\ trim title = title /\
    title =
      match
        fst (ask create
               (match model with Some s => s | None => js "gpt-3.5-turbo" end)
               [mkAIMessage System titlePromptText;
                mkAIMessage User firstUserMessage] m)
      with
      | Returned answer =>
          trim (Regex.replaceAll quote
                  (contentOr answer (js "New Conversation")))
      | Threw _ => js "New Conversation"
      end.
Proof.
  unfold generateConversationTitle. rewrite catch_primary.
  cbn [bind ret Monad_Task].
  destruct (ask create _ _ m) as [[answer|e] m1]; cbn [fst].
  - do 2 eexists. split; [reflexivity|].
    destruct (replaceAll_quote_gone
                (length (contentOr answer (js "New Conversation")))
                (contentOr answer (js "New Conversation")) ltac:(lia))
      as [A B].
    repeat split.
    + intros I. apply A. apply in_trim in I. exact I.
    + intros I. apply B. apply in_trim in I. exact I.
    + apply trim_idempotent.
  - do 2 eexists. split; [reflexivity|].
    repeat split; vm_compute; intuition discriminate.
Qed.

End OlderTitles.
